(** * Realtime relay of [src/server/index.js]: rooms, presence and fan-out

    The Socket.IO part of the server (lines 55-119) keeps two pieces of
    process-wide state: the adapter's table of connected sockets with the
    rooms each one has joined, and the [onlineUsers] map from an email to a
    socket id.  Every handler is a short sequence of statements over that
    state which emits events to a set of sockets, calls the store, or logs.

    The handlers are embedded as programs of a small state-and-output monad,
    one primitive per statement of the source.  An [await] is a suspension
    point: the rest of the handler is kept as a pending task and resumed by
    a later step that carries the result of the store call.

    What is taken from Socket.IO, as its documentation gives it: a new
    socket is in the room named by its own id; [io.to(r).emit] reaches each
    socket in [r] once, [socket.to(r).emit] each one that is not in the
    sender's own room, [io.emit] each connected socket; when the
    [disconnect] listeners run the socket has already left its rooms and the
    namespace.  Payloads are taken well formed, with strings for ids, emails
    and rooms, and the reading of the clock at a disconnect is an input of
    that step.  A rejection that no handler catches ends the process. *)

From stdpp Require Import gmap strings list fin_maps.

(** ** Payloads *)

(** [user] of [join-room]: [{id, name, email}]. *)
Record User := mkUser {
  user_id : string;
  user_name : string;
  user_email : string
}.

(** [msg] of [send_message]. *)
Record Message := mkMessage {
  roomId : string;
  sender_id : string;
  sender_email : string;
  content : string;
  created_at : string
}.

(** The row given to [supabase.from("messages").insert]. *)
Record MessageRow := mkRow {
  row_room_id : string;
  row_sender_id : string;
  row_sender_email : string;
  row_content : string;
  row_created_at : string
}.

(** Payload of [new_room_created] and of [room_added]. *)
Record RoomInfo := mkRoomInfo {
  room_info_id : string;
  room_info_name : string;
  is_group : bool;
  members : list string
}.

(** Events the server emits to clients. *)
Inductive OutEvent :=
  | user_online (email : string)
  | typing (isTyping : bool) (senderName : string)
  | receive_message (msg : Message)
  | room_added (info : RoomInfo)
  | offer (from sdp : string)
  | answer (from sdp : string)
  | ice_candidate (from candidate : string)
  | user_offline (email lastSeen : string).

(** Events a client emits to the server. *)
Inductive InEvent :=
  | join_room (room : string) (user : User)
  | typing_in (room : string) (isTyping : bool) (senderName : string)
  | send_message (msg : Message)
  | new_room_created (info : RoomInfo)
  | offer_in (room sdp : string)
  | answer_in (room sdp : string)
  | ice_candidate_in (room candidate : string).

(** Calls to the store. *)
Inductive StoreCall :=
  | insert_message (row : MessageRow)
  | update_last_seen (email lastSeen : string).

(** What an awaited store call gives back: [{error: null}], [{error}], or a
    rejected promise. *)
Inductive StoreResult :=
  | StoreOk
  | StoreError (err : string)
  | StoreThrows (err : string).

(** Lines written with [console.log] and [console.error]. *)
Inductive LogEntry :=
  | log_connected (id : string)
  | log_joined (name room : string)
  | log_insert_error (err : string)
  | log_send_error (err : string)
  | log_disconnected (name : string).

(** What a step of the server does to the outside.  [Exit err]: an error
    that no handler catches; node writes it and the process ends. *)
Inductive Effect :=
  | Deliver (to : string) (ev : OutEvent)
  | Store (call : StoreCall)
  | Log (entry : LogEntry)
  | Exit (err : string).

(** ** State *)

(** A connected socket: the rooms it is in and [socket.data.user]. *)
Record Socket := mkSocket {
  rooms : gset string;
  data_user : option User
}.

(** A handler suspended at its [await]. *)
Inductive Task :=
  | AwaitInsert (msg : Message)
  | AwaitUpdate (user : User).

Record Relay := mkRelay {
  sockets : gmap string Socket;
  onlineUsers : gmap string string;
  pending : list Task
}.

Definition initial : Relay :=
  {| sockets := ∅; onlineUsers := ∅; pending := [] |}.

(** ** The handler monad *)

Definition Handler (A : Type) : Type := Relay → A * Relay * list Effect.

#[global] Instance Handler_ret : MRet Handler :=
  λ A x σ, (x, σ, []).

#[global] Instance Handler_bind : MBind Handler :=
  λ A B f m σ,
    let '(x, σ1, out1) := m σ in
    let '(y, σ2, out2) := f x σ1 in
    (y, σ2, out1 ++ out2).

Definition modify (f : Relay → Relay) : Handler () :=
  λ σ, ((), f σ, []).

Definition tell (out : list Effect) : Handler () :=
  λ σ, ((), σ, out).

Definition gets {A} (f : Relay → A) : Handler A :=
  λ σ, (f σ, σ, []).

(** ** Socket.IO primitives used by the source *)

(** Ids of the connected sockets.  The order in which one emit reaches its
    recipients is the adapter's; only the set of recipients is modelled. *)
Definition io_sockets (σ : Relay) : list string :=
  elements (dom (sockets σ)).

(** Is socket [c] connected and in room [r]? *)
Definition is_member (σ : Relay) (r c : string) : bool :=
  match sockets σ !! c with
  | Some s => bool_decide (r ∈ rooms s)
  | None => false
  end.

Definition in_room (σ : Relay) (r : string) : list string :=
  filter (λ c, is_member σ r c) (io_sockets σ).

Definition emit_to (cs : list string) (ev : OutEvent) : list Effect :=
  (λ c, Deliver c ev) <$> cs.

(** [socket.join(room)] *)
Definition socket_join (id room : string) : Handler () :=
  modify (λ σ,
    {| sockets := alter (λ s, {| rooms := {[room]} ∪ rooms s;
                                data_user := data_user s |}) id (sockets σ);
       onlineUsers := onlineUsers σ;
       pending := pending σ |}).

(** [socket.data.user = user] *)
Definition set_data_user (id : string) (user : User) : Handler () :=
  modify (λ σ,
    {| sockets := alter (λ s, {| rooms := rooms s;
                                data_user := Some user |}) id (sockets σ);
       onlineUsers := onlineUsers σ;
       pending := pending σ |}).

(** [onlineUsers.set(email, id)] *)
Definition onlineUsers_set (email id : string) : Handler () :=
  modify (λ σ,
    {| sockets := sockets σ;
       onlineUsers := <[email := id]> (onlineUsers σ);
       pending := pending σ |}).

(** [onlineUsers.delete(email)] *)
Definition onlineUsers_delete (email : string) : Handler () :=
  modify (λ σ,
    {| sockets := sockets σ;
       onlineUsers := delete email (onlineUsers σ);
       pending := pending σ |}).

(** [io.to(room).emit(ev)]: every socket in the room. *)
Definition io_to_emit (room : string) (ev : OutEvent) : Handler () :=
  σ ← gets (λ σ, σ); tell (emit_to (in_room σ room) ev).

(** [socket.to(room).emit(ev)]: the broadcast is made with the sender's own
    room, the one named by its id, as the excepted room, so it reaches every
    socket in [room] that is not in the room named [id].  The sender is in
    that room from its connection on; so is any socket that joined it. *)
Definition socket_to_emit (id room : string) (ev : OutEvent) : Handler () :=
  σ ← gets (λ σ, σ);
  tell (emit_to (filter (λ c, is_member σ id c = false) (in_room σ room)) ev).

(** [io.emit(ev)]: every connected socket. *)
Definition io_emit (ev : OutEvent) : Handler () :=
  σ ← gets (λ σ, σ); tell (emit_to (io_sockets σ) ev).

Definition console (entry : LogEntry) : Handler () :=
  tell [Log entry].

(** Start a store call and suspend: [await supabase...]. *)
Definition await (call : StoreCall) (k : Task) : Handler () :=
  tell [Store call];;
  modify (λ σ,
    {| sockets := sockets σ;
       onlineUsers := onlineUsers σ;
       pending := pending σ ++ [k] |}).

(** ** The handlers, lines 63-118 *)

Definition on_join_room (id room : string) (user : User) : Handler () :=
  socket_join id room;;
  set_data_user id user;;
  onlineUsers_set (user_email user) id;;
  io_to_emit room (user_online (user_email user));;
  console (log_joined (user_name user) room).

Definition on_typing (id room : string) (isTyping : bool) (senderName : string)
  : Handler () :=
  socket_to_emit id room (typing isTyping senderName).

Definition row_of (msg : Message) : MessageRow :=
  {| row_room_id := roomId msg;
     row_sender_id := sender_id msg;
     row_sender_email := sender_email msg;
     row_content := content msg;
     row_created_at := created_at msg |}.

Definition on_send_message (msg : Message) : Handler () :=
  await (insert_message (row_of msg)) (AwaitInsert msg).

(** The rest of [send_message] once the insert has settled. *)
Definition send_message_resume (msg : Message) (r : StoreResult) : Handler () :=
  match r with
  | StoreError err => console (log_insert_error err)
  | StoreOk => io_to_emit (roomId msg) (receive_message msg)
  | StoreThrows err => console (log_send_error err)
  end.

Definition on_new_room_created (info : RoomInfo) : Handler () :=
  io_emit (room_added info).

Definition on_offer (id room sdp : string) : Handler () :=
  socket_to_emit id room (offer id sdp).

Definition on_answer (id room sdp : string) : Handler () :=
  socket_to_emit id room (answer id sdp).

Definition on_ice_candidate (id room candidate : string) : Handler () :=
  socket_to_emit id room (ice_candidate id candidate).

(** [disconnect]: [socket] is the handler's own socket object, which the
    library has already taken out of every room and out of the namespace;
    [now] is the value of [new Date().toISOString()]. *)
Definition on_disconnect (socket : Socket) (now : string) : Handler () :=
  match data_user socket with
  | Some user =>
      onlineUsers_delete (user_email user);;
      io_emit (user_offline (user_email user) now);;
      await (update_last_seen (user_email user) now) (AwaitUpdate user)
  | None => mret ()
  end.

(** The rest of [disconnect] once the update has settled: its result is not
    looked at.  The listener has no [try]: a rejected update leaves it as
    an unhandled rejection, and the process ends before the log line. *)
Definition disconnect_resume (user : User) (r : StoreResult) : Handler () :=
  match r with
  | StoreThrows err => tell [Exit err]
  | _ => console (log_disconnected (user_name user))
  end.

(** ** The event loop *)

Inductive Event :=
  | Connection (id : string)
  | Emit (id : string) (ev : InEvent)
  | Disconnect (id : string) (now : string)
  | Settle (i : nat) (r : StoreResult).

(** [io.on("connection")]: a new socket is in the room named by its own id
    and has an empty [data]. *)
Definition on_connection (id : string) : Handler () :=
  modify (λ σ,
    {| sockets := <[id := {| rooms := {[id]}; data_user := None |}]> (sockets σ);
       onlineUsers := onlineUsers σ;
       pending := pending σ |});;
  console (log_connected id).

(** The library's part of a disconnect: the socket leaves the adapter. *)
Definition unregister (id : string) : Handler () :=
  modify (λ σ,
    {| sockets := delete id (sockets σ);
       onlineUsers := onlineUsers σ;
       pending := pending σ |}).

Definition take_task (i : nat) : Handler () :=
  modify (λ σ,
    {| sockets := sockets σ;
       onlineUsers := onlineUsers σ;
       pending := delete i (pending σ) |}).

Definition dispatch (id : string) (ev : InEvent) : Handler () :=
  match ev with
  | join_room room user => on_join_room id room user
  | typing_in room isTyping senderName => on_typing id room isTyping senderName
  | send_message msg => on_send_message msg
  | new_room_created info => on_new_room_created info
  | offer_in room sdp => on_offer id room sdp
  | answer_in room sdp => on_answer id room sdp
  | ice_candidate_in room candidate => on_ice_candidate id room candidate
  end.

Definition resume (t : Task) (r : StoreResult) : Handler () :=
  match t with
  | AwaitInsert msg => send_message_resume msg r
  | AwaitUpdate user => disconnect_resume user r
  end.

Definition exec (h : Handler ()) (σ : Relay) : Relay * list Effect :=
  let '(_, σ', out) := h σ in (σ', out).

(** One step of the loop; [None] when the event cannot happen in [σ]: a
    socket id already in use connects, a socket that is not connected emits
    or disconnects, or a store call that is not pending settles. *)
Definition step (e : Event) (σ : Relay) : option (Relay * list Effect) :=
  match e with
  | Connection id =>
      match sockets σ !! id with
      | Some _ => None
      | None => Some (exec (on_connection id) σ)
      end
  | Emit id ev =>
      match sockets σ !! id with
      | Some _ => Some (exec (dispatch id ev) σ)
      | None => None
      end
  | Disconnect id now =>
      match sockets σ !! id with
      | Some socket => Some (exec (unregister id;; on_disconnect socket now) σ)
      | None => None
      end
  | Settle i r =>
      match pending σ !! i with
      | Some t => Some (exec (take_task i;; resume t r) σ)
      | None => None
      end
  end.

(** Has the process ended? *)
Definition exits (out : list Effect) : bool :=
  existsb (λ e, match e with Exit _ => true | _ => false end) out.

(** A run of the loop.  A step in which the process ends is the last one:
    no event is handled after it. *)
Fixpoint run (es : list Event) (σ : Relay) : option (Relay * list Effect) :=
  match es with
  | [] => Some (σ, [])
  | e :: es' =>
      match step e σ with
      | Some (σ1, out1) =>
          if exits out1
          then match es' with
               | [] => Some (σ1, out1 ++ [])
               | _ :: _ => None
               end
          else
            match run es' σ1 with
            | Some (σ2, out2) => Some (σ2, out1 ++ out2)
            | None => None
            end
      | None => None
      end
  end.

Definition reachable (σ : Relay) : Prop :=
  ∃ es out, run es initial = Some (σ, out).

(** ** Observations *)

(** [onlineUsers.has(email)]: the observation the spec calls [isOnline]; the
    source itself never reads the map. *)
Definition isOnline (email : string) (σ : Relay) : bool :=
  bool_decide (is_Some (onlineUsers σ !! email)).

(** The events delivered to socket [c] by a list of effects, in order. *)
Definition deliveries_to (c : string) (out : list Effect) : list OutEvent :=
  omap (λ e, match e with
             | Deliver c' ev => if decide (c' = c) then Some ev else None
             | _ => None
             end) out.

Definition store_calls (out : list Effect) : list StoreCall :=
  omap (λ e, match e with Store call => Some call | _ => None end) out.

(** ** States the steps lead to *)

(** State after [join-room]. *)
Definition joined (id r : string) (u : User) (σ : Relay) : Relay :=
  {| sockets :=
       alter (λ s, {| rooms := rooms s; data_user := Some u |}) id
         (alter (λ s, {| rooms := {[r]} ∪ rooms s; data_user := data_user s |})
            id (sockets σ));
     onlineUsers := <[user_email u := id]> (onlineUsers σ);
     pending := pending σ |}.

(** State once a handler has suspended on a store call. *)
Definition suspended (t : Task) (σ : Relay) : Relay :=
  {| sockets := sockets σ;
     onlineUsers := onlineUsers σ;
     pending := pending σ ++ [t] |}.

(** State once the [i]-th pending store call has settled. *)
Definition settled (i : nat) (σ : Relay) : Relay :=
  {| sockets := sockets σ;
     onlineUsers := onlineUsers σ;
     pending := delete i (pending σ) |}.

(** State after the disconnect of socket [id] that had joined as [u]. *)
Definition offline (id : string) (u : User) (σ : Relay) : Relay :=
  {| sockets := delete id (sockets σ);
     onlineUsers := delete (user_email u) (onlineUsers σ);
     pending := pending σ ++ [AwaitUpdate u] |}.

(** State after the disconnect of socket [id] that had never joined. *)
Definition dropped (id : string) (σ : Relay) : Relay :=
  {| sockets := delete id (sockets σ);
     onlineUsers := onlineUsers σ;
     pending := pending σ |}.

(** ** Predicates on results, events and runs *)

(** Is the result of a store call a failure? *)
Definition failed (r : StoreResult) : bool :=
  match r with
  | StoreOk => false
  | StoreError _ | StoreThrows _ => true
  end.

(** Does event [e] create socket [id], end it, or set its
    [socket.data.user]? *)
Definition sets_identity (id : string) (e : Event) : bool :=
  match e with
  | Connection id' => bool_decide (id' = id)
  | Disconnect id' _ => bool_decide (id' = id)
  | Emit id' (join_room _ _) => bool_decide (id' = id)
  | _ => false
  end.

(** Is [e] a [join-room] of a socket that already has an identity with
    another email? *)
Definition rejoins_as_other (σ : Relay) (e : Event) : bool :=
  match e with
  | Emit id (join_room _ u) =>
      match sockets σ !! id with
      | Some s =>
          match data_user s with
          | Some u' => bool_decide (user_email u' ≠ user_email u)
          | None => false
          end
      | None => false
      end
  | _ => false
  end.

(** No socket changes its email along the run of [es] from [σ]. *)
Fixpoint one_email_per_socket (es : list Event) (σ : Relay) : bool :=
  match es with
  | [] => true
  | e :: es' =>
      negb (rejoins_as_other σ e)
      && match step e σ with
         | Some (σ1, _) => one_email_per_socket es' σ1
         | None => true
         end
  end.

(** Is [e] a [join-room] under email [email], or the connection of a socket
    with id [id]? *)
Definition revives (email id : string) (e : Event) : bool :=
  match e with
  | Emit _ (join_room _ u) => bool_decide (user_email u = email)
  | Connection id' => bool_decide (id' = id)
  | _ => false
  end.

(** ** Presence against the table of sockets *)

(** Every presence entry names a connected socket. *)
Definition presence_registered (σ : Relay) : Prop :=
  ∀ e c, onlineUsers σ !! e = Some c → is_Some (sockets σ !! c).

(** The window the spec allows: some connected socket still carries email
    [e] as its identity while the entry of [e] points elsewhere. *)
Definition overwrite_window (σ : Relay) (e : string) : Prop :=
  ∃ c s u, sockets σ !! c = Some s ∧ data_user s = Some u
           ∧ user_email u = e ∧ onlineUsers σ !! e ≠ Some c.

(** Every presence entry names a connected socket whose identity carries
    the entry's email. *)
Definition presence_live (σ : Relay) : Prop :=
  ∀ e c, onlineUsers σ !! e = Some c →
    ∃ s u, sockets σ !! c = Some s ∧ data_user s = Some u ∧ user_email u = e.

(** ** Concrete users, states and runs *)

Definition alice : User := mkUser "1" "A" "a@x.com".

Definition bob : User := mkUser "2" "B" "b@x.com".

Definition hello : Message :=
  mkMessage "r1" "1" "a@x.com" "hello" "2024-01-01T00:00:00.000Z".

(** Two sockets, connected and not yet joined. *)
Definition lobby : Relay :=
  {| sockets := {[ "X" := {| rooms := {[ "X" ]}; data_user := None |};
                   "Y" := {| rooms := {[ "Y" ]}; data_user := None |} ]};
     onlineUsers := ∅;
     pending := [] |}.

(** [X] has joined ["r1"] as [alice], [Y] as [bob]; [Z] is connected only. *)
Definition chatting : Relay :=
  {| sockets := {[ "X" := {| rooms := {[ "r1"; "X" ]}; data_user := Some alice |};
                   "Y" := {| rooms := {[ "r1"; "Y" ]}; data_user := Some bob |};
                   "Z" := {| rooms := {[ "Z" ]}; data_user := None |} ]};
     onlineUsers := {[ "a@x.com" := "X"; "b@x.com" := "Y" ]};
     pending := [] |}.

(** [chatting] after a fourth socket has connected, typed and sent a
    message without joining. *)
Definition lurking : Relay :=
  {| sockets := <[ "W" := {| rooms := {[ "W" ]}; data_user := None |} ]>
                  (sockets chatting);
     onlineUsers := onlineUsers chatting;
     pending := [AwaitInsert hello] |}.

(** [X] and then [Y] have joined ["r1"] as [alice]. *)
Definition raced : Relay :=
  {| sockets := {[ "X" := {| rooms := {[ "r1"; "X" ]}; data_user := Some alice |};
                   "Y" := {| rooms := {[ "r1"; "Y" ]}; data_user := Some alice |} ]};
     onlineUsers := {[ "a@x.com" := "Y" ]};
     pending := [] |}.

(** [X] and [Y] join ["r1"]; then [Y] also joins the room named by the id
    of [X]. *)
Definition crossed : list Event :=
  [Connection "X"; Connection "Y";
   Emit "X" (join_room "r1" alice); Emit "Y" (join_room "r1" bob);
   Emit "Y" (join_room "X" bob)].

(** Where [crossed] ends. *)
Definition crossed_rooms : Relay :=
  {| sockets := {[ "X" := {| rooms := {[ "r1"; "X" ]}; data_user := Some alice |};
                   "Y" := {| rooms := {[ "X"; "r1"; "Y" ]};
                             data_user := Some bob |} ]};
     onlineUsers := {[ "a@x.com" := "X"; "b@x.com" := "Y" ]};
     pending := [] |}.

(** The race of the spec up to the disconnect: [A] joins as [alice], then
    [B] joins as [alice]. *)
Definition reconnect_race : list Event :=
  [Connection "A"; Emit "A" (join_room "r1" alice);
   Connection "B"; Emit "B" (join_room "r1" alice)].

(** [A] joins as [alice], joins again as [bob], and disconnects; the
    last-seen update settles. *)
Definition identity_switch : list Event :=
  [Connection "A"; Emit "A" (join_room "r1" alice);
   Emit "A" (join_room "r1" bob); Disconnect "A" "t"; Settle 0 StoreOk].

(** Where [identity_switch] ends. *)
Definition orphaned : Relay :=
  {| sockets := ∅; onlineUsers := {[ "a@x.com" := "A" ]}; pending := [] |}.

(** ** More predicates on effects, events and runs *)

(** The sockets a list of effects delivers to, in order. *)
Definition recipients (out : list Effect) : list string :=
  omap (λ e, match e with Deliver c _ => Some c | _ => None end) out.

(** Is [e] the disconnect of socket [c]? *)
Definition ends_socket (c : string) (e : Event) : bool :=
  match e with
  | Disconnect c' _ => bool_decide (c' = c)
  | _ => false
  end.

(** Does the identity of socket [s] carry [email]? *)
Definition carries (email : string) (s : Socket) : bool :=
  match data_user s with
  | Some u => bool_decide (user_email u = email)
  | None => false
  end.

(** Is [e] a [join-room] under an email that another connected socket
    carries? *)
Definition shares_email (σ : Relay) (e : Event) : bool :=
  match e with
  | Emit id (join_room _ u) =>
      bool_decide (map_Exists (λ c s, c ≠ id ∧ carries (user_email u) s = true)
                     (sockets σ))
  | _ => false
  end.

(** No two connected sockets carry the same email along the run of [es]
    from [σ]. *)
Fixpoint one_socket_per_email (es : list Event) (σ : Relay) : bool :=
  match es with
  | [] => true
  | e :: es' =>
      negb (shares_email σ e)
      && match step e σ with
         | Some (σ1, _) => one_socket_per_email es' σ1
         | None => true
         end
  end.

(** Every connected socket is in the room named by its own id. *)
Definition own_rooms (σ : Relay) : Prop :=
  ∀ id s, sockets σ !! id = Some s → id ∈ rooms s.

(** Every connected socket with an identity is the one its email's presence
    entry points at. *)
Definition presence_complete (σ : Relay) : Prop :=
  ∀ c s u, sockets σ !! c = Some s → data_user s = Some u →
    onlineUsers σ !! user_email u = Some c.

(** * The admin HTTP API, lines 24-52 and 121-211

    Every route handler is one [async] function inside [try]/[catch] that
    talks to the store, to bcrypt, to the token library and to the mail
    service, and answers with one response.  A handler is embedded as a
    program that performs such calls one after the other; it is run against
    a world that tells, for each call, what it returns or that it rejects.
    A rejection ends the program and is what [catch] receives.  A request
    may come without a parsed body: [req.body] is then [undefined] and the
    destructuring that opens a handler throws.  The fields read from a body
    are strings or missing; other JSON values are not modelled. *)

Module Admin.

(** A field of [req.body]. *)
Inductive JsValue :=
  | undefined
  | null
  | str (s : string).

(** [!v] is false. *)
Definition truthy (v : JsValue) : bool :=
  match v with
  | str s => bool_decide (s ≠ "")
  | _ => false
  end.

(** [v] inside a template literal. *)
Definition to_string (v : JsValue) : string :=
  match v with
  | undefined => "undefined"
  | null => "null"
  | str s => s
  end.

(** The fields the handlers read of a parsed [req.body]. *)
Record ReqBody := mkReqBody {
  body_name : JsValue;
  body_email : JsValue;
  body_password : JsValue
}.

(** What the handlers read of a request: [req.params.id] and [req.body],
    which is [undefined] when no body was parsed. *)
Record Request := mkRequest {
  req_id : string;
  req_body : option ReqBody
}.

(** [name], [email] and [password] of the request's body; [undefined] when
    there is no body to read them from. *)
Definition req_name (req : Request) : JsValue :=
  from_option body_name undefined (req_body req).

Definition req_email (req : Request) : JsValue :=
  from_option body_email undefined (req_body req).


(** A row of the [users] table. *)
Record UserRow := mkUserRow {
  id : string;
  name : string;
  email : string;
  role : string;
  password_hash : string
}.

(** A row of [select("id, name, email, role, created_at")]. *)
Record Listing := mkListing {
  listing_id : string;
  listing_name : string;
  listing_email : string;
  listing_role : string;
  listing_created_at : string
}.

(** [{data, error}] of a query; an error is kept by its [message]. *)
Record QueryResult (A : Type) := mkQueryResult {
  data : option A;
  error : option string
}.

Arguments mkQueryResult {A} _ _.
Arguments data {A} _.
Arguments error {A} _.

(** The variables of [process.env] the server reads. *)
Record ProcessEnv := mkProcessEnv {
  env_JWT_SECRET : option string;
  env_PORT : option string;
  env_EMAILJS_SERVICE_ID : option string;
  env_EMAILJS_TEMPLATE_ID : option string;
  env_EMAILJS_PUBLIC_KEY : option string;
  env_EMAILJS_PRIVATE_KEY : option string
}.

(** [process.env.JWT_SECRET || "default_secret"] *)
Definition JWT_SECRET (penv : ProcessEnv) : string :=
  match env_JWT_SECRET penv with
  | Some s => if bool_decide (s ≠ "") then s else "default_secret"
  | None => "default_secret"
  end.

(** [process.env.PORT || 5013]: the variable's text, or the number. *)
Definition PORT (penv : ProcessEnv) : string + N :=
  match env_PORT penv with
  | Some s => if bool_decide (s ≠ "") then inl s else inr 5013%N
  | None => inr 5013%N
  end.

(** The JSON posted to the mail service. *)
Record Mail := mkMail {
  service_id : option string;
  template_id : option string;
  public_key : option string;
  private_key : option string;
  to_name : JsValue;
  to_email : JsValue;
  mail_password : string;
  message : string
}.

(** The calls a handler makes to the outside, indexed by what they give
    back.  A store call gives back its [error] (or [{data, error}]); the
    mail call gives back the HTTP status of the answer.  [random_password]
    is [Math.random().toString(36).slice(-8)]; it and [jwt_sign] are not
    awaited, and a world that rejects them is one in which they throw. *)
Inductive Call : Type → Type :=
  | select_user_by_email (email : JsValue) : Call (QueryResult UserRow)
  | bcrypt_compare (password : JsValue) (hash : string) : Call bool
  | jwt_sign (id role secret expiresIn : string) : Call string
  | random_password : Call string
  | bcrypt_hash (password : string) (saltRounds : nat) : Call string
  | auth_admin_createUser (email : JsValue) (password : string)
      (email_confirm : bool) : Call (option string)
  | insert_user (name email : JsValue) (role password_hash : string)
    : Call (option string)
  | emailjs_send (mail : Mail) : Call nat
  | select_users : Call (QueryResult (list Listing))
  | update_user (id : string) (name email : JsValue) : Call (option string)
  | delete_user (id : string) : Call (option string).

Inductive Kind :=
  | Select_user | Compare | Sign | Random | Hash | Create_auth_user
  | Insert_user | Send_mail | Select_users | Update_user | Delete_user.

#[global] Instance Kind_eq_dec : EqDecision Kind.
Proof. solve_decision. Defined.

Definition kind {X : Type} (c : Call X) : Kind :=
  match c with
  | select_user_by_email _ => Select_user
  | bcrypt_compare _ _ => Compare
  | jwt_sign _ _ _ _ => Sign
  | random_password => Random
  | bcrypt_hash _ _ => Hash
  | auth_admin_createUser _ _ _ => Create_auth_user
  | insert_user _ _ _ _ => Insert_user
  | emailjs_send _ => Send_mail
  | select_users => Select_users
  | update_user _ _ _ => Update_user
  | delete_user _ => Delete_user
  end.

(** What a call does: it returns a value, or its promise is rejected (or it
    throws). *)
Inductive Outcome (X : Type) :=
  | Returns (x : X)
  | Rejects (err : string).

Arguments Returns {X} _.
Arguments Rejects {X} _.

(** The outside: what each call does. *)
Definition World : Type := ∀ X : Type, Call X → Outcome X.

(** What a handler did, in order: its calls with their outcomes, and the
    lines of [console.error]. *)
Inductive Step :=
  | Called (X : Type) (c : Call X) (o : Outcome X)
  | Logged (label err : string).

Definition kinds (t : list Step) : list Kind :=
  omap (λ st, match st with
              | Called _ c _ => Some (kind c)
              | Logged _ _ => None
              end) t.

(** Bodies of the responses. *)
Inductive ResBody :=
  | msg (text : string)
  | error_body (text : string)
  | token_admin (token admin_id admin_name admin_email : string)
  | created (text : string) (name email : JsValue) (password : string)
  | listing (rows : option (list Listing))
  | sent (text : string).

Record Response := mkResponse {
  status : nat;
  body : ResBody
}.

(** [res.json(b)] *)
Definition json (b : ResBody) : Response := {| status := 200; body := b |}.

(** [res.status(n).json(b)] *)
Definition status_json (n : nat) (b : ResBody) : Response :=
  {| status := n; body := b |}.

(** Programs over the calls; [Throw err] is a statement of the handler
    itself that throws. *)
Inductive Prog (A : Type) : Type :=
  | Ret (a : A)
  | Throw (err : string)
  | Vis (X : Type) (c : Call X) (k : X → Prog A).

Arguments Ret {A} _.
Arguments Throw {A} _.
Arguments Vis {A} _ _ _.

Fixpoint bind {A B : Type} (p : Prog A) (f : A → Prog B) : Prog B :=
  match p with
  | Ret a => f a
  | Throw err => Throw err
  | Vis X c k => Vis X c (λ x, bind (k x) f)
  end.

#[global] Instance Prog_ret : MRet Prog := λ A a, Ret a.

#[global] Instance Prog_bind : MBind Prog := λ A B f p, bind p f.

(** [await c] *)
Definition call {X : Type} (c : Call X) : Prog X := Vis X c Ret.

(** Runs [p] in world [w]: the steps made, and the result or the error
    that ended the run. *)
Fixpoint perform {A : Type} (w : World) (p : Prog A) : list Step * (A + string) :=
  match p with
  | Ret a => ([], inl a)
  | Throw err => ([], inr err)
  | Vis X c k =>
      match w X c with
      | Returns x =>
          let '(t, r) := perform w (k x) in (Called X c (Returns x) :: t, r)
      | Rejects err => ([Called X c (Rejects err)], inr err)
      end
  end.

(** [try { p } catch (err) { console.error(label, err);
    res.status(500).json(b) }] *)
Definition try_catch (label : string) (b : ResBody) (w : World)
    (p : Prog Response) : list Step * Response :=
  match perform w p with
  | (t, inl res) => (t, res)
  | (t, inr err) => (t ++ [Logged label err], status_json 500 b)
  end.

(** [const { first, ... } = req.body]: a [TypeError] that names the first
    property when there is no body. *)
Definition destructure_body (first : string) (req : Request) : Prog ReqBody :=
  match req_body req with
  | Some b => mret b
  | None =>
      Throw ("Cannot destructure property '" +:+ first
             +:+ "' of 'req.body' as it is undefined.")
  end.

(** [POST /auth/admin-login], lines 27-52. *)
Definition admin_login (penv : ProcessEnv) (req : Request) : Prog Response :=
  b ← destructure_body "email" req;
  r ← call (select_user_by_email (body_email b));
  match error r, data r with
  | None, Some userData =>
      if bool_decide (role userData ≠ "admin")
      then mret (status_json 403 (msg "Not an admin"))
      else
        isMatch ← call (bcrypt_compare (body_password b) (password_hash userData));
        if negb isMatch
        then mret (status_json 400 (msg "Invalid credentials"))
        else
          token ← call (jwt_sign (id userData) (role userData)
                          (JWT_SECRET penv) "2h");
          mret (json (token_admin token (id userData) (name userData)
                        (email userData)))
  | _, _ => mret (status_json 400 (msg "User not found"))
  end.

(** The mail of [create-user], lines 146-157. *)
Definition welcome_mail (penv : ProcessEnv) (name email : JsValue)
    (password : string) : Mail :=
  {| service_id := env_EMAILJS_SERVICE_ID penv;
     template_id := env_EMAILJS_TEMPLATE_ID penv;
     public_key := env_EMAILJS_PUBLIC_KEY penv;
     private_key := env_EMAILJS_PRIVATE_KEY penv;
     to_name := name;
     to_email := email;
     mail_password := password;
     message := "Welcome " +:+ to_string name +:+ "! Your login email is "
                +:+ to_string email +:+ " and password is " +:+ password
                +:+ "." |}.

(** [POST /admin/create-user], lines 122-165. *)
Definition create_user (penv : ProcessEnv) (req : Request) : Prog Response :=
  b ← destructure_body "name" req;
  let name := body_name b in
  let email := body_email b in
  if negb (truthy name) || negb (truthy email)
  then mret (status_json 400 (msg "Missing fields"))
  else
    password ← call random_password;
    hashed ← call (bcrypt_hash password 10);
    supaError ← call (auth_admin_createUser email password true);
    match supaError with
    | Some m => mret (status_json 400 (msg m))
    | None =>
        dbError ← call (insert_user name email "member" hashed);
        match dbError with
        | Some m => mret (status_json 400 (msg m))
        | None =>
            call (emailjs_send (welcome_mail penv name email password));;
            mret (json (created "✅ User created successfully" name email
                          password))
        end
    end.

(** [GET /admin/users], lines 167-176. *)
Definition list_users : Prog Response :=
  r ← call select_users;
  match error r with
  | Some m => mret (status_json 400 (error_body m))
  | None => mret (json (listing (data r)))
  end.

(** [PUT /admin/users/:id], lines 178-192. *)
Definition put_user (req : Request) : Prog Response :=
  b ← destructure_body "name" req;
  let name := body_name b in
  let email := body_email b in
  if negb (truthy name) || negb (truthy email)
  then mret (status_json 400 (msg "Missing fields"))
  else
    e ← call (update_user (req_id req) name email);
    match e with
    | Some m => mret (status_json 400 (msg m))
    | None => mret (json (msg "User updated"))
    end.

(** [DELETE /admin/users/:id], lines 194-204. *)
Definition remove_user (req : Request) : Prog Response :=
  e ← call (delete_user (req_id req));
  match e with
  | Some m => mret (status_json 400 (msg m))
  | None => mret (json (msg "User deleted"))
  end.

(** The routes of the application. *)
Inductive Route :=
  | POST_auth_admin_login
  | POST_admin_create_user
  | GET_admin_users
  | PUT_admin_users_id
  | DELETE_admin_users_id
  | GET_root.

(** The label of the route's [console.error]. *)
Definition error_label (route : Route) : string :=
  match route with
  | POST_auth_admin_login => "Admin login error:"
  | POST_admin_create_user => "Create user error:"
  | GET_admin_users => "Get users error:"
  | PUT_admin_users_id => "Update user error:"
  | DELETE_admin_users_id => "Delete user error:"
  | GET_root => ""
  end.

(** What the server does with a request to [route]. *)
Definition serve (penv : ProcessEnv) (w : World) (route : Route) (req : Request)
  : list Step * Response :=
  match route with
  | POST_auth_admin_login =>
      try_catch (error_label route) (msg "Server error") w (admin_login penv req)
  | POST_admin_create_user =>
      try_catch (error_label route) (msg "Server error") w (create_user penv req)
  | GET_admin_users =>
      try_catch (error_label route) (error_body "Server error") w list_users
  | PUT_admin_users_id =>
      try_catch (error_label route) (msg "Server error") w (put_user req)
  | DELETE_admin_users_id =>
      try_catch (error_label route) (msg "Server error") w (remove_user req)
  | GET_root => ([], {| status := 200; body := sent "✅ Backend server running!" |})
  end.

(** Every response the program can end with satisfies [P]. *)
Fixpoint returns_only {A : Type} (P : A → Prop) (p : Prog A) : Prop :=
  match p with
  | Ret a => P a
  | Throw _ => True
  | Vis X c k => ∀ x, returns_only P (k x)
  end.

(** No statement of the program itself throws. *)
Fixpoint never_throws {A : Type} (p : Prog A) : Prop :=
  match p with
  | Ret _ => True
  | Throw _ => False
  | Vis X c k => ∀ x, never_throws (k x)
  end.

(** Does the handler of the route destructure [req.body]? *)
Definition reads_body (route : Route) : bool :=
  match route with
  | POST_auth_admin_login | POST_admin_create_user | PUT_admin_users_id => true
  | GET_admin_users | DELETE_admin_users_id | GET_root => false
  end.

(** The program of a route that has a [try] block. *)
Definition program (penv : ProcessEnv) (route : Route) (req : Request)
  : option (Prog Response) :=
  match route with
  | POST_auth_admin_login => Some (admin_login penv req)
  | POST_admin_create_user => Some (create_user penv req)
  | GET_admin_users => Some list_users
  | PUT_admin_users_id => Some (put_user req)
  | DELETE_admin_users_id => Some (remove_user req)
  | GET_root => None
  end.

(** Has some call of the run been rejected? *)
Definition rejected (t : list Step) : bool :=
  existsb (λ st, match st with
                 | Called _ _ (Rejects _) => true
                 | _ => false
                 end) t.

(** A world for the examples: the store knows one admin, every password
    matches, and every call succeeds. *)
Definition root_row : UserRow :=
  mkUserRow "7" "Root" "root@x.com" "admin" "$2b$10$hash".

Definition friendly : World :=
  λ X c,
    match c in Call X return Outcome X with
    | select_user_by_email _ => Returns (mkQueryResult (Some root_row) None)
    | bcrypt_compare _ _ => Returns true
    | jwt_sign id _ _ _ => Returns ("token-for-" +:+ id)
    | random_password => Returns "k3j9x0qa"
    | bcrypt_hash password _ => Returns ("$2b$10$" +:+ password)
    | auth_admin_createUser _ _ _ => Returns None
    | insert_user _ _ _ _ => Returns None
    | emailjs_send _ => Returns 200
    | select_users => Returns (mkQueryResult (Some []) None)
    | update_user _ _ _ => Returns None
    | delete_user _ => Returns None
    end.

(** As [friendly], but the [users] table refuses every write. *)
Definition read_only : World :=
  λ X c,
    match c in Call X return Outcome X with
    | insert_user _ _ _ _ => Returns (Some "permission denied")
    | update_user _ _ _ => Returns (Some "permission denied")
    | delete_user _ => Returns (Some "permission denied")
    | c' => friendly _ c'
    end.

Definition no_env : ProcessEnv := mkProcessEnv None None None None None None.

Definition new_member : Request :=
  mkRequest "" (Some (mkReqBody (str "Carol") (str "carol@x.com") undefined)).

Definition root_login : Request :=
  mkRequest "" (Some (mkReqBody undefined (str "root@x.com") (str "secret"))).

(** A request with an empty name. *)
Definition nameless : Request :=
  mkRequest "7" (Some (mkReqBody (str "") (str "carol@x.com") undefined)).

(** A request without a parsed body. *)
Definition bodiless : Request := mkRequest "7" None.

End Admin.

(** ** Proof tools *)

(** Runs the handler of a step [H : Some (exec h σ) = Some (σ', out)] and
    replaces [σ'] and [out] by what it computes. *)
Ltac step_inv H :=
  cbv [exec dispatch resume on_connection unregister take_task
       on_join_room on_typing on_send_message send_message_resume
       on_new_room_created on_offer on_answer on_ice_candidate
       on_disconnect disconnect_resume
       socket_join set_data_user onlineUsers_set onlineUsers_delete
       io_to_emit socket_to_emit io_emit console await
       modify tell gets mbind mret Handler_bind Handler_ret] in H;
  simplify_eq; cbn.

(** ** Fan-out lemmas *)

Section fan_out.
Implicit Types (σ : Relay) (c r : string) (out : list Effect) (ev : OutEvent).

Lemma deliveries_to_app c out1 out2 :
  deliveries_to c (out1 ++ out2) = deliveries_to c out1 ++ deliveries_to c out2.
Proof. apply omap_app. Qed.

Lemma deliveries_to_emit_absent c cs ev :
  c ∉ cs → deliveries_to c (emit_to cs ev) = [].
Proof.
  induction cs as [|c' cs IH]; [done|].
  intros [Hne Hnotin]%not_elem_of_cons. unfold deliveries_to, emit_to in *. cbn.
  rewrite decide_False by done. by apply IH.
Qed.

(** A socket that occurs once among the recipients gets the event once. *)
Lemma deliveries_to_emit c cs ev :
  NoDup cs →
  deliveries_to c (emit_to cs ev) = if bool_decide (c ∈ cs) then [ev] else [].
Proof.
  induction 1 as [|c' cs Hnotin Hnd IH].
  - done.
  - unfold deliveries_to, emit_to in *. cbn. destruct (decide (c' = c)) as [->|Hne].
    + rewrite bool_decide_eq_true_2 by left.
      f_equal. by apply (deliveries_to_emit_absent c cs ev).
    + rewrite IH. apply f_equal with (f := λ b : bool, if b then [ev] else []).
      apply bool_decide_ext. rewrite elem_of_cons.
      split; [by right | by intros [->|?]].
Qed.

Lemma elem_of_io_sockets σ c : c ∈ io_sockets σ ↔ is_Some (sockets σ !! c).
Proof. unfold io_sockets. by rewrite elem_of_elements, elem_of_dom. Qed.

Lemma NoDup_io_sockets σ : NoDup (io_sockets σ).
Proof. unfold io_sockets. apply NoDup_elements. Qed.

Lemma is_member_connected σ r c : is_member σ r c = true → is_Some (sockets σ !! c).
Proof. unfold is_member. destruct (sockets σ !! c); [eauto | done]. Qed.

Lemma elem_of_in_room σ r c : c ∈ in_room σ r ↔ is_member σ r c = true.
Proof.
  unfold in_room. rewrite list_elem_of_filter, elem_of_io_sockets, Is_true_true.
  split; [tauto|]. eauto using is_member_connected.
Qed.

Lemma NoDup_in_room σ r : NoDup (in_room σ r).
Proof. apply NoDup_filter, NoDup_io_sockets. Qed.

Lemma exits_app out1 out2 : exits (out1 ++ out2) = exits out1 || exits out2.
Proof. apply existsb_app. Qed.

Lemma exits_emit_to cs ev : exits (emit_to cs ev) = false.
Proof. induction cs as [|c' cs IH]; [done|]. exact IH. Qed.

(** [io.emit]: one copy for each connected socket. *)
Lemma deliveries_io_emit σ c ev :
  deliveries_to c (emit_to (io_sockets σ) ev)
  = if bool_decide (is_Some (sockets σ !! c)) then [ev] else [].
Proof.
  rewrite deliveries_to_emit by apply NoDup_io_sockets.
  apply f_equal with (f := λ b : bool, if b then [ev] else []).
  apply bool_decide_ext, elem_of_io_sockets.
Qed.

(** [io.to(r).emit]: one copy for each member of the room. *)
Lemma deliveries_io_to σ r c ev :
  deliveries_to c (emit_to (in_room σ r) ev)
  = if is_member σ r c then [ev] else [].
Proof.
  rewrite deliveries_to_emit by apply NoDup_in_room.
  destruct (is_member σ r c) eqn:Hm.
  - by rewrite bool_decide_eq_true_2 by by apply elem_of_in_room.
  - rewrite bool_decide_eq_false_2; [done|].
    rewrite elem_of_in_room. congruence.
Qed.

(** [socket.to(r).emit]: one copy for each member that is not in the
    sender's own room. *)
Lemma deliveries_socket_to σ id r c ev :
  deliveries_to c
    (emit_to (filter (λ c', is_member σ id c' = false) (in_room σ r)) ev)
  = if is_member σ r c && negb (is_member σ id c) then [ev] else [].
Proof.
  rewrite deliveries_to_emit by apply NoDup_filter, NoDup_in_room.
  apply f_equal with (f := λ b : bool, if b then [ev] else []).
  apply eq_true_iff_eq.
  rewrite bool_decide_eq_true, list_elem_of_filter, elem_of_in_room.
  rewrite andb_true_iff, negb_true_iff. tauto.
Qed.
End fan_out.

(** ** What each step computes *)

Section steps.
Implicit Types (σ : Relay) (id c r : string) (u : User) (s : Socket).

Lemma step_join_room σ id r u :
  is_Some (sockets σ !! id) →
  step (Emit id (join_room r u)) σ
  = Some (joined id r u σ,
          emit_to (in_room (joined id r u σ) r) (user_online (user_email u))
            ++ [Log (log_joined (user_name u) r)]).
Proof. intros [s Hs]. unfold step. rewrite Hs. reflexivity. Qed.

Lemma joined_lookup σ id r u c :
  sockets (joined id r u σ) !! c
  = if decide (id = c)
    then (λ s, {| rooms := {[r]} ∪ rooms s; data_user := Some u |})
           <$> sockets σ !! c
    else sockets σ !! c.
Proof.
  unfold joined; cbn. destruct (decide (id = c)) as [<-|Hne].
  - rewrite !lookup_alter_eq. by destruct (sockets σ !! id).
  - by rewrite !lookup_alter_ne.
Qed.

Lemma joined_is_member σ id r u c :
  is_Some (sockets σ !! id) →
  is_member (joined id r u σ) r c = is_member σ r c || bool_decide (c = id).
Proof.
  intros [s Hs]. unfold is_member. rewrite joined_lookup.
  destruct (decide (id = c)) as [<-|Hne].
  - rewrite Hs; cbn. rewrite (bool_decide_eq_true_2 (id = id)) by done.
    rewrite orb_true_r. apply bool_decide_eq_true_2. set_solver.
  - rewrite (bool_decide_eq_false_2 (c = id)) by done. by rewrite orb_false_r.
Qed.

Lemma step_typing σ id r b n :
  is_Some (sockets σ !! id) →
  step (Emit id (typing_in r b n)) σ
  = Some (σ, emit_to (filter (λ c, is_member σ id c = false) (in_room σ r))
               (typing b n)).
Proof. intros [s Hs]. unfold step. rewrite Hs. by destruct σ. Qed.

Lemma step_new_room_created σ id info :
  is_Some (sockets σ !! id) →
  step (Emit id (new_room_created info)) σ
  = Some (σ, emit_to (io_sockets σ) (room_added info)).
Proof. intros [s Hs]. unfold step. rewrite Hs. by destruct σ. Qed.
End steps.

(** ** Join, typing and room announcement *)

(** C6. After a connected socket [id] emits [join-room(r, u)]:
    [isOnline(u.email)] is true, [id] is a member of [r] (the members of [r]
    are the earlier ones and [id]), and [user_online u.email] is delivered
    once to each member of [r], [id] included, and to no other socket. *)
Theorem join_room_postcondition (σ : Relay) (id r : string) (u : User) :
  is_Some (sockets σ !! id) →
  ∃ σ' out,
    step (Emit id (join_room r u)) σ = Some (σ', out)
    ∧ isOnline (user_email u) σ' = true
    ∧ is_member σ' r id = true
    ∧ (∀ c, is_member σ' r c = is_member σ r c || bool_decide (c = id))
    ∧ (∀ c, deliveries_to c out
            = if is_member σ' r c then [user_online (user_email u)] else [])
    ∧ deliveries_to id out = [user_online (user_email u)].
Proof.
  intros Hid. eexists _, _. split; [by apply step_join_room|].
  assert (Hmem : is_member (joined id r u σ) r id = true).
  { rewrite joined_is_member by done.
    rewrite (bool_decide_eq_true_2 (id = id)) by done. apply orb_true_r. }
  assert (Hout : ∀ c,
    deliveries_to c (emit_to (in_room (joined id r u σ) r)
                       (user_online (user_email u))
                     ++ [Log (log_joined (user_name u) r)])
    = if is_member (joined id r u σ) r c
      then [user_online (user_email u)] else []).
  { intros c. rewrite deliveries_to_app, deliveries_io_to. apply app_nil_r. }
  repeat split.
  - unfold isOnline, joined; cbn. apply bool_decide_eq_true_2.
    rewrite lookup_insert_eq. eauto.
  - done.
  - intros c. by apply joined_is_member.
  - done.
  - by rewrite Hout, Hmem.
Qed.

Lemma join_room_postcondition_witness :
  ∃ σ' out,
    step (Emit "Y" (join_room "r1" bob)) lobby = Some (σ', out)
    ∧ isOnline "b@x.com" σ' = true
    ∧ is_member σ' "r1" "Y" = true
    ∧ (∀ c, is_member σ' "r1" c = is_member lobby "r1" c || bool_decide (c = "Y"))
    ∧ (∀ c, deliveries_to c out
            = if is_member σ' "r1" c then [user_online "b@x.com"] else [])
    ∧ deliveries_to "Y" out = [user_online "b@x.com"].
Proof.
  apply (join_room_postcondition lobby "Y" "r1" bob).
  exists {| rooms := {[ "Y" ]}; data_user := None |}. vm_compute. reflexivity.
Defined.

(** C7, as stated, fails: [Y] has joined ["r1"] and also the room named
    ["X"], the id of [X]; when [X] types in ["r1"], [Y] is a member of
    ["r1"] other than [X] and receives nothing. *)
Lemma typing_misses_member_in_senders_room :
  fst <$> run crossed initial = Some crossed_rooms
  ∧ is_member crossed_rooms "r1" "Y" = true
  ∧ deliveries_to "Y" ∘ snd
      <$> step (Emit "X" (typing_in "r1" true "A")) crossed_rooms
    = Some [].
Proof. repeat split; vm_compute; reflexivity. Qed.

(** C7, amended. When a connected socket [id] emits [typing] for room [r],
    the payload [{isTyping, senderName}] is delivered once to each member of
    [r] that is not in the room named by [id], and to no other socket.  The
    sender is in that room, so it receives nothing; when no other socket
    has joined that room, the recipients are the members of [r] other than
    [id].  Nothing else is emitted, stored or logged, and the state is
    unchanged. *)
Theorem typing_relay_excludes_senders_room
    (σ : Relay) (id r : string) (isTyping : bool) (senderName : string) :
  is_Some (sockets σ !! id) →
  is_member σ id id = true →
  ∃ out,
    step (Emit id (typing_in r isTyping senderName)) σ = Some (σ, out)
    ∧ (∀ c, deliveries_to c out
            = if is_member σ r c && negb (is_member σ id c)
              then [typing isTyping senderName] else [])
    ∧ deliveries_to id out = []
    ∧ ((∀ c, c ≠ id → is_member σ id c = false) →
       ∀ c, deliveries_to c out
            = if is_member σ r c && bool_decide (c ≠ id)
              then [typing isTyping senderName] else [])
    ∧ Forall (λ e, ∃ c, e = Deliver c (typing isTyping senderName)) out.
Proof.
  intros Hid Hown. eexists. split; [by apply step_typing|].
  split; [|split; [|split]].
  - intros c. apply deliveries_socket_to.
  - by rewrite deliveries_socket_to, Hown, andb_false_r.
  - intros Hsole c. rewrite deliveries_socket_to.
    destruct (decide (c = id)) as [->|Hne].
    + by rewrite Hown, (bool_decide_eq_false_2 (id ≠ id)) by tauto.
    + by rewrite (Hsole c Hne), (bool_decide_eq_true_2 (c ≠ id)).
  - apply Forall_fmap, Forall_true. intros c; cbn. eauto.
Qed.

(** The scenario of the spec: [X] and [Y] are in ["r1"], [X] types, and [Y]
    alone receives the payload. *)
Lemma typing_relay_excludes_senders_room_witness :
  ∃ out,
    step (Emit "X" (typing_in "r1" true "A")) chatting = Some (chatting, out)
    ∧ (∀ c, deliveries_to c out
            = if is_member chatting "r1" c && negb (is_member chatting "X" c)
              then [typing true "A"] else [])
    ∧ deliveries_to "X" out = []
    ∧ ((∀ c, c ≠ "X" → is_member chatting "X" c = false) →
       ∀ c, deliveries_to c out
            = if is_member chatting "r1" c && bool_decide (c ≠ "X")
              then [typing true "A"] else [])
    ∧ Forall (λ e, ∃ c, e = Deliver c (typing true "A")) out.
Proof.
  apply (typing_relay_excludes_senders_room chatting "X" "r1" true "A").
  - exists {| rooms := {[ "r1"; "X" ]}; data_user := Some alice |}.
    vm_compute. reflexivity.
  - reflexivity.
Defined.

(** C8. When a connected socket emits [new_room_created], [room_added] with
    the same [{id, name, is_group, members}] is delivered once to every
    connected socket, whatever its rooms and the sender included; nothing
    else is emitted and the state is unchanged. *)
Theorem new_room_created_announced (σ : Relay) (id : string) (info : RoomInfo) :
  is_Some (sockets σ !! id) →
  ∃ out,
    step (Emit id (new_room_created info)) σ = Some (σ, out)
    ∧ (∀ c, deliveries_to c out
            = if bool_decide (is_Some (sockets σ !! c))
              then [room_added info] else [])
    ∧ deliveries_to id out = [room_added info]
    ∧ Forall (λ e, ∃ c, e = Deliver c (room_added info)) out.
Proof.
  intros Hid. eexists. split; [by apply step_new_room_created|].
  split; [|split].
  - intros c. apply deliveries_io_emit.
  - rewrite deliveries_io_emit. by rewrite bool_decide_eq_true_2.
  - apply Forall_fmap, Forall_true. intros c; cbn. eauto.
Qed.

Lemma new_room_created_announced_witness :
  ∃ out,
    step (Emit "Z" (new_room_created (mkRoomInfo "r2" "team" true ["a@x.com"])))
      chatting = Some (chatting, out)
    ∧ (∀ c, deliveries_to c out
            = if bool_decide (is_Some (sockets chatting !! c))
              then [room_added (mkRoomInfo "r2" "team" true ["a@x.com"])] else [])
    ∧ deliveries_to "Z" out
      = [room_added (mkRoomInfo "r2" "team" true ["a@x.com"])]
    ∧ Forall (λ e, ∃ c, e = Deliver c
                (room_added (mkRoomInfo "r2" "team" true ["a@x.com"]))) out.
Proof.
  apply (new_room_created_announced chatting "Z").
  exists {| rooms := {[ "Z" ]}; data_user := None |}. vm_compute. reflexivity.
Defined.

(** ** Sending a message *)

Lemma step_send_message (σ : Relay) (id : string) (msg : Message) :
  is_Some (sockets σ !! id) →
  step (Emit id (send_message msg)) σ
  = Some (suspended (AwaitInsert msg) σ, [Store (insert_message (row_of msg))]).
Proof. intros [s Hs]. unfold step. rewrite Hs. reflexivity. Qed.

Lemma step_settle_insert_ok (σ : Relay) (i : nat) (msg : Message) :
  pending σ !! i = Some (AwaitInsert msg) →
  step (Settle i StoreOk) σ
  = Some (settled i σ,
          emit_to (in_room (settled i σ) (roomId msg)) (receive_message msg)).
Proof. intros Hi. unfold step. rewrite Hi. reflexivity. Qed.

Lemma step_settle_insert_failed
    (σ : Relay) (i : nat) (msg : Message) (r : StoreResult) :
  pending σ !! i = Some (AwaitInsert msg) →
  failed r = true →
  step (Settle i r) σ
  = Some (settled i σ,
          [Log (match r with
                | StoreThrows err => log_send_error err
                | StoreError err => log_insert_error err
                | StoreOk => log_send_error ""
                end)]).
Proof. intros Hi Hr. unfold step. rewrite Hi. by destruct r. Qed.

Lemma settled_is_member (σ : Relay) (i : nat) (r c : string) :
  is_member (settled i σ) r c = is_member σ r c.
Proof. reflexivity. Qed.

(** C3. The synchronous part of [send_message] only starts the insert and
    suspends; when the insert then fails (an [error] in its result, or a
    rejection), the rest of the handler writes one log line and nothing
    else: no socket receives [receive_message] or any other event, no store
    call is made, and sockets and presence are unchanged. *)
Theorem send_message_fails_closed
    (σ σ2 : Relay) (id : string) (msg : Message) (i : nat) (r : StoreResult) :
  is_Some (sockets σ !! id) →
  pending σ2 !! i = Some (AwaitInsert msg) →
  failed r = true →
  step (Emit id (send_message msg)) σ
  = Some (suspended (AwaitInsert msg) σ, [Store (insert_message (row_of msg))])
  ∧ ∃ σ3 entry,
      step (Settle i r) σ2 = Some (σ3, [Log entry])
      ∧ (∀ c, deliveries_to c [Log entry] = [])
      ∧ store_calls [Log entry] = []
      ∧ sockets σ3 = sockets σ2
      ∧ onlineUsers σ3 = onlineUsers σ2
      ∧ pending σ3 = delete i (pending σ2).
Proof.
  intros Hid Hi Hr. split; [by apply step_send_message|].
  eexists _, _. split; [by apply (step_settle_insert_failed σ2 i msg r)|]. done.
Qed.

Lemma send_message_fails_closed_witness :
  step (Emit "X" (send_message hello)) chatting
  = Some (suspended (AwaitInsert hello) chatting,
          [Store (insert_message (row_of hello))])
  ∧ ∃ σ3 entry,
      step (Settle 0 (StoreError "timeout")) (suspended (AwaitInsert hello) chatting)
      = Some (σ3, [Log entry])
      ∧ (∀ c, deliveries_to c [Log entry] = [])
      ∧ store_calls [Log entry] = []
      ∧ sockets σ3 = sockets (suspended (AwaitInsert hello) chatting)
      ∧ onlineUsers σ3 = onlineUsers (suspended (AwaitInsert hello) chatting)
      ∧ pending σ3 = delete 0 (pending (suspended (AwaitInsert hello) chatting)).
Proof.
  apply (send_message_fails_closed chatting (suspended (AwaitInsert hello) chatting)
           "X" hello 0 (StoreError "timeout")).
  - exists {| rooms := {[ "r1"; "X" ]}; data_user := Some alice |}.
    vm_compute. reflexivity.
  - reflexivity.
  - reflexivity.
Defined.

(** C4. When the insert of a [send_message] succeeds, the rest of the
    handler delivers [receive_message msg] once to each socket that is a
    member of [msg.roomId] at that moment and to no other socket; the sender
    is not left out: if it is a member it gets its copy.  Nothing else is
    emitted, and sockets and presence are unchanged. *)
Theorem send_message_delivered_to_room
    (σ σ2 : Relay) (id : string) (msg : Message) (i : nat) :
  is_Some (sockets σ !! id) →
  pending σ2 !! i = Some (AwaitInsert msg) →
  step (Emit id (send_message msg)) σ
  = Some (suspended (AwaitInsert msg) σ, [Store (insert_message (row_of msg))])
  ∧ ∃ σ3 out,
      step (Settle i StoreOk) σ2 = Some (σ3, out)
      ∧ (∀ c, deliveries_to c out
              = if is_member σ2 (roomId msg) c then [receive_message msg] else [])
      ∧ (is_member σ2 (roomId msg) id = true →
         deliveries_to id out = [receive_message msg])
      ∧ Forall (λ e, ∃ c, e = Deliver c (receive_message msg)) out
      ∧ sockets σ3 = sockets σ2
      ∧ onlineUsers σ3 = onlineUsers σ2
      ∧ pending σ3 = delete i (pending σ2).
Proof.
  intros Hid Hi. split; [by apply step_send_message|].
  eexists _, _. split; [by apply step_settle_insert_ok|].
  assert (Hout : ∀ c,
    deliveries_to c (emit_to (in_room (settled i σ2) (roomId msg))
                       (receive_message msg))
    = if is_member σ2 (roomId msg) c then [receive_message msg] else []).
  { intros c. by rewrite deliveries_io_to, settled_is_member. }
  repeat split.
  - done.
  - intros Hm. by rewrite Hout, Hm.
  - apply Forall_fmap, Forall_true. intros c; cbn. eauto.
Qed.

Lemma send_message_delivered_to_room_witness :
  step (Emit "X" (send_message hello)) chatting
  = Some (suspended (AwaitInsert hello) chatting,
          [Store (insert_message (row_of hello))])
  ∧ ∃ σ3 out,
      step (Settle 0 StoreOk) (suspended (AwaitInsert hello) chatting)
      = Some (σ3, out)
      ∧ (∀ c, deliveries_to c out
              = if is_member (suspended (AwaitInsert hello) chatting)
                     (roomId hello) c
                then [receive_message hello] else [])
      ∧ (is_member (suspended (AwaitInsert hello) chatting) (roomId hello) "X"
         = true →
         deliveries_to "X" out = [receive_message hello])
      ∧ Forall (λ e, ∃ c, e = Deliver c (receive_message hello)) out
      ∧ sockets σ3 = sockets (suspended (AwaitInsert hello) chatting)
      ∧ onlineUsers σ3 = onlineUsers (suspended (AwaitInsert hello) chatting)
      ∧ pending σ3 = delete 0 (pending (suspended (AwaitInsert hello) chatting)).
Proof.
  apply (send_message_delivered_to_room chatting
           (suspended (AwaitInsert hello) chatting) "X" hello 0).
  - exists {| rooms := {[ "r1"; "X" ]}; data_user := Some alice |}.
    vm_compute. reflexivity.
  - reflexivity.
Defined.

Example send_message_scenario :
  (λ out, (deliveries_to "X" out, deliveries_to "Y" out, deliveries_to "Z" out))
    ∘ snd <$> run [Emit "X" (send_message hello); Settle 0 StoreOk] chatting
  = Some ([receive_message hello], [receive_message hello], []).
Proof. vm_compute. reflexivity. Qed.

(** ** Disconnect *)

Lemma step_disconnect_joined (σ : Relay) (id now : string) (s : Socket) (u : User) :
  sockets σ !! id = Some s →
  data_user s = Some u →
  step (Disconnect id now) σ
  = Some (offline id u σ,
          emit_to (io_sockets (offline id u σ)) (user_offline (user_email u) now)
            ++ [Store (update_last_seen (user_email u) now)]).
Proof.
  intros Hs Hu. unfold step. rewrite Hs. unfold on_disconnect. rewrite Hu.
  reflexivity.
Qed.

Lemma step_disconnect_unjoined (σ : Relay) (id now : string) (s : Socket) :
  sockets σ !! id = Some s →
  data_user s = None →
  step (Disconnect id now) σ = Some (dropped id σ, []).
Proof.
  intros Hs Hu. unfold step. rewrite Hs. unfold on_disconnect. rewrite Hu.
  reflexivity.
Qed.

Lemma step_settle_update (σ : Relay) (i : nat) (u : User) (r : StoreResult) :
  pending σ !! i = Some (AwaitUpdate u) →
  step (Settle i r) σ
  = Some (settled i σ,
          match r with
          | StoreThrows err => [Exit err]
          | _ => [Log (log_disconnected (user_name u))]
          end).
Proof. intros Hi. unfold step. rewrite Hi. by destruct r. Qed.

(** C5. When a socket that has joined as [u] disconnects, [user_offline]
    with [u.email] and the timestamp is delivered once to every socket that
    is still connected, whatever its rooms; [isOnline(u.email)] is false
    afterwards; the last-seen update is started only after the broadcast.
    Whatever the update gives back, the rest of the handler delivers
    nothing: on success and on an [error] in the result it writes the
    "disconnected" line and leaves sockets and presence as they are; on a
    rejection, which the listener does not catch, the process ends, the
    broadcast having been made in the step before. *)
Theorem disconnect_announces_offline
    (σ : Relay) (id now : string) (s : Socket) (u : User) :
  sockets σ !! id = Some s →
  data_user s = Some u →
  ∃ σ' out,
    step (Disconnect id now) σ = Some (σ', out)
    ∧ sockets σ' = delete id (sockets σ)
    ∧ isOnline (user_email u) σ' = false
    ∧ out = emit_to (io_sockets σ') (user_offline (user_email u) now)
              ++ [Store (update_last_seen (user_email u) now)]
    ∧ (∀ c, deliveries_to c out
            = if bool_decide (is_Some (sockets σ' !! c))
              then [user_offline (user_email u) now] else [])
    ∧ exits out = false
    ∧ pending σ' = pending σ ++ [AwaitUpdate u]
    ∧ (∀ r, ∃ σ'' out',
         step (Settle (length (pending σ)) r) σ' = Some (σ'', out')
         ∧ (∀ c, deliveries_to c out' = [])
         ∧ out' = match r with
                  | StoreThrows err => [Exit err]
                  | _ => [Log (log_disconnected (user_name u))]
                  end
         ∧ match r with
           | StoreThrows _ => True
           | _ => sockets σ'' = sockets σ' ∧ onlineUsers σ'' = onlineUsers σ'
           end).
Proof.
  intros Hs Hu. eexists _, _. split; [by eapply step_disconnect_joined|].
  repeat split.
  - unfold isOnline, offline; cbn. apply bool_decide_eq_false_2.
    rewrite lookup_delete_eq. by intros [? ?].
  - intros c. rewrite deliveries_to_app, deliveries_io_emit. apply app_nil_r.
  - by rewrite exits_app, exits_emit_to.
  - intros r. eexists _, _. split.
    + apply (step_settle_update _ _ u). unfold offline; cbn.
      by rewrite lookup_app_r, Nat.sub_diag.
    + by destruct r.
Qed.

(** The scenario of the spec: [X] had joined as [a@x.com] and disconnects. *)
Lemma disconnect_announces_offline_witness :
  ∃ σ' out,
    step (Disconnect "X" "2024-01-01T00:00:00.000Z") chatting = Some (σ', out)
    ∧ sockets σ' = delete "X" (sockets chatting)
    ∧ isOnline "a@x.com" σ' = false
    ∧ out = emit_to (io_sockets σ')
              (user_offline "a@x.com" "2024-01-01T00:00:00.000Z")
              ++ [Store (update_last_seen "a@x.com" "2024-01-01T00:00:00.000Z")]
    ∧ (∀ c, deliveries_to c out
            = if bool_decide (is_Some (sockets σ' !! c))
              then [user_offline "a@x.com" "2024-01-01T00:00:00.000Z"] else [])
    ∧ exits out = false
    ∧ pending σ' = pending chatting ++ [AwaitUpdate alice]
    ∧ (∀ r, ∃ σ'' out',
         step (Settle (length (pending chatting)) r) σ' = Some (σ'', out')
         ∧ (∀ c, deliveries_to c out' = [])
         ∧ out' = match r with
                  | StoreThrows err => [Exit err]
                  | _ => [Log (log_disconnected (user_name alice))]
                  end
         ∧ match r with
           | StoreThrows _ => True
           | _ => sockets σ'' = sockets σ' ∧ onlineUsers σ'' = onlineUsers σ'
           end).
Proof.
  apply (disconnect_announces_offline chatting "X" "2024-01-01T00:00:00.000Z"
           {| rooms := {[ "r1"; "X" ]}; data_user := Some alice |} alice).
  - vm_compute. reflexivity.
  - reflexivity.
Defined.

Example disconnect_scenario :
  (λ out, (deliveries_to "X" out, deliveries_to "Y" out, deliveries_to "Z" out))
    ∘ snd <$> step (Disconnect "X" "t") chatting
  = Some ([], [user_offline "a@x.com" "t"], [user_offline "a@x.com" "t"]).
Proof. vm_compute. reflexivity. Qed.

(** ** Events that leave a socket's identity alone *)

Section identity.
Implicit Types (σ : Relay) (id : string) (e : Event) (es : list Event).

Lemma run_cons e es σ σ' out :
  run (e :: es) σ = Some (σ', out) →
  ∃ σ1 out1 out2,
    step e σ = Some (σ1, out1) ∧ run es σ1 = Some (σ', out2)
    ∧ out = out1 ++ out2.
Proof.
  cbn. destruct (step e σ) as [[σ1 o1]|]; [|done].
  destruct (exits o1).
  - destruct es; [|done]. intros; simplify_eq. eexists _, _, _. eauto.
  - destruct (run es σ1) as [[σ2 o2]|] eqn:Hrest; [|done].
    intros; simplify_eq. eexists _, _, _. eauto.
Qed.

(** When the first step does not end the process, the run goes on. *)
Lemma run_step e es σ σ1 out1 :
  step e σ = Some (σ1, out1) →
  exits out1 = false →
  run (e :: es) σ
  = match run es σ1 with
    | Some (σ2, out2) => Some (σ2, out1 ++ out2)
    | None => None
    end.
Proof. intros Hstep Hlive. cbn. by rewrite Hstep, Hlive. Qed.

(** A step that does not set the identity of [id] leaves its socket as it
    was. *)
Lemma step_keeps_socket id e σ σ' out :
  sets_identity id e = false →
  step e σ = Some (σ', out) →
  sockets σ' !! id = sockets σ !! id.
Proof.
  intros Hid Hstep. destruct e as [id'|id' ev|id' now|i r]; cbn in *.
  - apply bool_decide_eq_false in Hid.
    destruct (sockets σ !! id'); [done|]. step_inv Hstep.
    by rewrite lookup_insert_ne.
  - destruct (sockets σ !! id'); [|done].
    destruct ev; step_inv Hstep; try done.
    apply bool_decide_eq_false in Hid. by rewrite !lookup_alter_ne.
  - apply bool_decide_eq_false in Hid.
    destruct (sockets σ !! id') as [s|]; [|done].
    unfold on_disconnect in Hstep.
    destruct (data_user s); step_inv Hstep; by rewrite lookup_delete_ne.
  - destruct (pending σ !! i) as [[msg|u]|]; [| |done];
      destruct r; by step_inv Hstep.
Qed.

Lemma run_keeps_socket id es σ σ' out :
  Forall (λ e, sets_identity id e = false) es →
  run es σ = Some (σ', out) →
  sockets σ' !! id = sockets σ !! id.
Proof.
  intros Hes. revert σ out. induction Hes as [|e es He _ IH]; intros σ out Hrun.
  - cbn in Hrun. by simplify_eq.
  - apply run_cons in Hrun as (σ1 & o1 & o2 & Hstep & Hrest & _).
    rewrite (IH _ _ Hrest). by eapply step_keeps_socket.
Qed.
End identity.

(** C9. A socket that connects and, without ever emitting [join-room],
    disconnects: its disconnect emits nothing (no [user_offline]), makes no
    store call, writes no log line, and leaves presence and the pending
    calls as they are; only the socket itself goes away. *)
Theorem unjoined_disconnect_is_silent
    (σ0 σ : Relay) (id now : string) (mid : list Event) (out : list Effect) :
  run (Connection id :: mid) σ0 = Some (σ, out) →
  Forall (λ e, sets_identity id e = false) mid →
  ∃ σ',
    step (Disconnect id now) σ = Some (σ', [])
    ∧ onlineUsers σ' = onlineUsers σ
    ∧ pending σ' = pending σ
    ∧ sockets σ' = delete id (sockets σ).
Proof.
  intros Hrun Hmid.
  apply run_cons in Hrun as (σ1 & o1 & o2 & Hconn & Hrest & _).
  assert (Hs : sockets σ !! id = Some {| rooms := {[id]}; data_user := None |}).
  { rewrite (run_keeps_socket id mid σ1 σ o2 Hmid Hrest).
    cbn in Hconn. destruct (sockets σ0 !! id); [done|]. step_inv Hconn.
    apply lookup_insert_eq. }
  exists (dropped id σ). split; [|done].
  by apply (step_disconnect_unjoined σ id now _ Hs).
Qed.

Lemma unjoined_disconnect_is_silent_witness :
  ∃ σ',
    step (Disconnect "W" "t") lurking = Some (σ', [])
    ∧ onlineUsers σ' = onlineUsers lurking
    ∧ pending σ' = pending lurking
    ∧ sockets σ' = delete "W" (sockets lurking).
Proof.
  apply (unjoined_disconnect_is_silent chatting lurking "W" "t"
           [Emit "W" (typing_in "r1" true "W"); Emit "W" (send_message hello)]
           [Log (log_connected "W"); Deliver "Y" (typing true "W");
            Deliver "X" (typing true "W");
            Store (insert_message (row_of hello))]).
  - vm_compute. reflexivity.
  - repeat constructor.
Defined.

(** ** Presence *)

(** C10. [join-room(r, u)] sets the presence entry of [u.email] to the
    joining socket and changes no entry of another email.  So a socket that
    joins as [u1] and then as [u2], with another email, leaves the entry of
    [u1.email] in place, pointing at itself; its disconnect then removes the
    entry of [u2.email] alone, and the entry of [u1.email] still names the
    socket that is gone. *)
Theorem join_room_presence_frame
    (σ : Relay) (id r1 r2 now : string) (u1 u2 : User) :
  is_Some (sockets σ !! id) →
  user_email u1 ≠ user_email u2 →
  (∃ σ1 out1,
     step (Emit id (join_room r1 u1)) σ = Some (σ1, out1)
     ∧ onlineUsers σ1 !! user_email u1 = Some id
     ∧ ∀ e, e ≠ user_email u1 → onlineUsers σ1 !! e = onlineUsers σ !! e)
  ∧ ∃ σ2 out2 σ3 out3,
      run [Emit id (join_room r1 u1); Emit id (join_room r2 u2)] σ
      = Some (σ2, out2)
      ∧ onlineUsers σ2 !! user_email u1 = Some id
      ∧ onlineUsers σ2 !! user_email u2 = Some id
      ∧ step (Disconnect id now) σ2 = Some (σ3, out3)
      ∧ sockets σ3 !! id = None
      ∧ onlineUsers σ3 !! user_email u1 = Some id
      ∧ onlineUsers σ3 !! user_email u2 = None
      ∧ ∀ e, e ≠ user_email u2 → onlineUsers σ3 !! e = onlineUsers σ2 !! e.
Proof.
  intros Hid Hne. split.
  - eexists _, _. split; [by apply step_join_room|]. split.
    + apply lookup_insert_eq.
    + intros e He. by apply lookup_insert_ne.
  - assert (Hid1 : is_Some (sockets (joined id r1 u1 σ) !! id)).
    { rewrite joined_lookup, decide_True by done. by apply fmap_is_Some. }
    assert (∃ s2, sockets (joined id r2 u2 (joined id r1 u1 σ)) !! id = Some s2
                  ∧ data_user s2 = Some u2) as (s2 & Hs2 & Hu2).
    { destruct Hid1 as [s1 Hs1]. rewrite joined_lookup, decide_True, Hs1 by done.
      by eexists. }
    exists (joined id r2 u2 (joined id r1 u1 σ)). eexists.
    exists (offline id u2 (joined id r2 u2 (joined id r1 u1 σ))). eexists.
    split.
    { cbn [run]. rewrite step_join_room by done.
      rewrite step_join_room by done.
      rewrite !exits_app, !exits_emit_to. reflexivity. }
    split; [|split; [|split; [|repeat split]]].
    + cbn. rewrite lookup_insert_ne by done. apply lookup_insert_eq.
    + apply lookup_insert_eq.
    + by apply (step_disconnect_joined _ id now s2 u2).
    + apply lookup_delete_eq.
    + cbn. rewrite lookup_delete_ne, lookup_insert_ne by done.
      apply lookup_insert_eq.
    + apply lookup_delete_eq.
    + intros e He. cbn. by rewrite lookup_delete_ne.
Qed.

Lemma join_room_presence_frame_witness :
  (∃ σ1 out1,
     step (Emit "X" (join_room "r1" alice)) lobby = Some (σ1, out1)
     ∧ onlineUsers σ1 !! user_email alice = Some "X"
     ∧ ∀ e, e ≠ user_email alice → onlineUsers σ1 !! e = onlineUsers lobby !! e)
  ∧ ∃ σ2 out2 σ3 out3,
      run [Emit "X" (join_room "r1" alice); Emit "X" (join_room "r2" bob)] lobby
      = Some (σ2, out2)
      ∧ onlineUsers σ2 !! user_email alice = Some "X"
      ∧ onlineUsers σ2 !! user_email bob = Some "X"
      ∧ step (Disconnect "X" "t") σ2 = Some (σ3, out3)
      ∧ sockets σ3 !! "X" = None
      ∧ onlineUsers σ3 !! user_email alice = Some "X"
      ∧ onlineUsers σ3 !! user_email bob = None
      ∧ ∀ e, e ≠ user_email bob → onlineUsers σ3 !! e = onlineUsers σ2 !! e.
Proof.
  apply (join_room_presence_frame lobby "X" "r1" "r2" "t" alice bob).
  - exists {| rooms := {[ "X" ]}; data_user := None |}. vm_compute. reflexivity.
  - vm_compute. discriminate.
Defined.

(** C1, as stated, fails: before the disconnect of [A] the entry of
    [a@x.com] points at [B]; after it [B] is still connected and in the
    room, and [isOnline("a@x.com")] is false. *)
Lemma reconnect_race_evicts_newer_presence :
  (λ '(σ, _), onlineUsers σ !! "a@x.com") <$> run reconnect_race initial
  = Some (Some "B")
  ∧ (λ '(σ, _), (is_member σ "r1" "B", isOnline "a@x.com" σ))
      <$> run (reconnect_race ++ [Disconnect "A" "t"]) initial
    = Some (true, false).
Proof. split; vm_compute; reflexivity. Qed.

(** C1, amended. The disconnect handler deletes the presence entry of the
    email the disconnecting socket last joined with, whichever socket that
    entry points at.  So whenever [A] joins as [U], another socket [B] later
    joins with the same email, and the disconnect of [A] is then processed
    ([A] not having joined again in between), [isOnline(U.email)] is false
    afterwards; the entries of all other emails are untouched. *)
Theorem stale_disconnect_clears_presence
    (σ0 σ : Relay) (A B rA rB now : string) (U U' : User)
    (mid1 mid2 : list Event) (out : list Effect) :
  A ≠ B →
  user_email U' = user_email U →
  Forall (λ e, sets_identity A e = false) (mid1 ++ mid2) →
  run (Emit A (join_room rA U) :: mid1 ++ Emit B (join_room rB U') :: mid2) σ0
  = Some (σ, out) →
  ∃ σ' out',
    step (Disconnect A now) σ = Some (σ', out')
    ∧ isOnline (user_email U) σ' = false
    ∧ ∀ e, e ≠ user_email U → onlineUsers σ' !! e = onlineUsers σ !! e.
Proof.
  intros HAB Hemail Hmid Hrun.
  apply run_cons in Hrun as (σ1 & o1 & o2 & Hjoin & Hrest & _).
  assert (HA0 : is_Some (sockets σ0 !! A)).
  { cbn in Hjoin. by destruct (sockets σ0 !! A). }
  rewrite step_join_room in Hjoin by done. simplify_eq.
  assert (∃ s, sockets σ !! A = Some s ∧ data_user s = Some U) as (s & Hs & Hu).
  { erewrite run_keeps_socket; [| |exact Hrest].
    - destruct HA0 as [s0 Hs0].
      rewrite joined_lookup, decide_True, Hs0 by done. by eexists.
    - apply Forall_app in Hmid as [H1 H2]. apply Forall_app. split; [done|].
      constructor; [|done]. cbn. by apply bool_decide_eq_false_2. }
  eexists _, _. split; [by apply (step_disconnect_joined σ A now s U)|]. split.
  - unfold isOnline, offline; cbn. apply bool_decide_eq_false_2.
    rewrite lookup_delete_eq. by intros [? ?].
  - intros e He. cbn. by rewrite lookup_delete_ne.
Qed.

Lemma stale_disconnect_clears_presence_witness :
  ∃ σ' out',
    step (Disconnect "X" "t") raced = Some (σ', out')
    ∧ isOnline (user_email alice) σ' = false
    ∧ ∀ e, e ≠ user_email alice → onlineUsers σ' !! e = onlineUsers raced !! e.
Proof.
  apply (stale_disconnect_clears_presence lobby raced "X" "Y" "r1" "r1" "t"
           alice alice [] []
           [Deliver "X" (user_online "a@x.com"); Log (log_joined "A" "r1");
            Deliver "Y" (user_online "a@x.com");
            Deliver "X" (user_online "a@x.com"); Log (log_joined "A" "r1")]).
  - vm_compute. discriminate.
  - reflexivity.
  - constructor.
  - vm_compute. reflexivity.
Defined.

(** ** Presence entries and the sockets they name *)

Section presence.
Implicit Types (σ : Relay) (e : Event) (es : list Event).

Lemma step_presence_live σ e σ' out :
  presence_live σ →
  rejoins_as_other σ e = false →
  step e σ = Some (σ', out) →
  presence_live σ'.
Proof.
  intros Hinv Hre Hstep em c. destruct e as [id|id ev|id now|i r]; cbn in *.
  - destruct (sockets σ !! id) eqn:Hid; [done|]. step_inv Hstep.
    intros (s & u & Hs & Hu)%Hinv. exists s, u.
    rewrite lookup_insert_ne; [done|]. congruence.
  - destruct (sockets σ !! id) as [s0|] eqn:Hid; [|done].
    destruct ev as [r u| | | | | |]; step_inv Hstep; try apply Hinv.
    destruct (decide (user_email u = em)) as [<-|Hem].
    + rewrite lookup_insert_eq. intros [= <-].
      rewrite !lookup_alter_eq, Hid. cbn. by eexists _, _.
    + rewrite lookup_insert_ne by done.
      intros (s & u' & Hs & Hu & Hmail)%Hinv.
      destruct (decide (id = c)) as [->|Hc].
      * rewrite Hid in Hs. simplify_eq. rewrite Hu in Hre.
        by apply bool_decide_eq_false, dec_stable in Hre.
      * exists s, u'. by rewrite !lookup_alter_ne.
  - destruct (sockets σ !! id) as [s0|] eqn:Hid; [|done].
    unfold on_disconnect in Hstep.
    destruct (data_user s0) as [u0|] eqn:Hu0; step_inv Hstep.
    + destruct (decide (user_email u0 = em)) as [<-|Hem].
      { by rewrite lookup_delete_eq. }
      rewrite lookup_delete_ne by done.
      intros (s & u & Hs & Hu & Hmail)%Hinv. exists s, u.
      rewrite lookup_delete_ne; [done|]. intros <-. congruence.
    + intros (s & u & Hs & Hu & Hmail)%Hinv. exists s, u.
      rewrite lookup_delete_ne; [done|]. intros <-. congruence.
  - destruct (pending σ !! i) as [[msg|u]|]; [| |done];
      destruct r; step_inv Hstep; apply Hinv.
Qed.

Lemma run_presence_live es σ σ' out :
  presence_live σ →
  one_email_per_socket es σ = true →
  run es σ = Some (σ', out) →
  presence_live σ'.
Proof.
  revert σ out. induction es as [|e es IH]; intros σ out Hinv Hone Hrun.
  - cbn in Hrun. by simplify_eq.
  - apply run_cons in Hrun as (σ1 & o1 & o2 & Hstep & Hrest & _).
    cbn in Hone. rewrite Hstep in Hone.
    apply andb_true_iff in Hone as [Hre Hone]. apply negb_true_iff in Hre.
    eapply IH; [|done|done]. by eapply step_presence_live.
Qed.

(** An entry whose socket is gone stays as it is until a socket joins
    under its email (or a socket with the same id connects). *)
Lemma step_keeps_orphan email id σ e σ' out :
  onlineUsers σ !! email = Some id →
  sockets σ !! id = None →
  (∀ c s u, sockets σ !! c = Some s → data_user s = Some u →
            user_email u ≠ email) →
  revives email id e = false →
  step e σ = Some (σ', out) →
  onlineUsers σ' !! email = Some id
  ∧ sockets σ' !! id = None
  ∧ (∀ c s u, sockets σ' !! c = Some s → data_user s = Some u →
              user_email u ≠ email).
Proof.
  intros Hentry Hgone Hnone Hrev Hstep.
  destruct e as [id'|id' ev|id' now|i r]; cbn in *.
  - apply bool_decide_eq_false in Hrev.
    destruct (sockets σ !! id') eqn:Hid; [done|]. step_inv Hstep.
    split; [done|]. split; [by rewrite lookup_insert_ne|].
    intros c s u. rewrite lookup_insert. case_decide.
    + by intros [= <-].
    + apply Hnone.
  - destruct (sockets σ !! id') as [s0|] eqn:Hid; [|done].
    destruct ev as [r u| | | | | |]; step_inv Hstep; try done.
    apply bool_decide_eq_false in Hrev.
    split; [by rewrite lookup_insert_ne|].
    assert (id' ≠ id) by congruence.
    split; [by rewrite !lookup_alter_ne|].
    intros c s u'. destruct (decide (id' = c)) as [<-|Hc].
    + rewrite !lookup_alter_eq, Hid. cbn. intros [= <-]. cbn. congruence.
    + rewrite !lookup_alter_ne by done. apply Hnone.
  - destruct (sockets σ !! id') as [s0|] eqn:Hid; [|done].
    unfold on_disconnect in Hstep.
    assert (id' ≠ id) by congruence.
    assert (Hrest : ∀ c s u, delete id' (sockets σ) !! c = Some s →
              data_user s = Some u → user_email u ≠ email).
    { intros c s u [_ Hs]%lookup_delete_Some. by apply (Hnone c). }
    destruct (data_user s0) as [u0|] eqn:Hu0; step_inv Hstep.
    + split; [|split; [by rewrite lookup_delete_ne|done]].
      rewrite lookup_delete_ne; [done|]. by apply (Hnone id' s0).
    + split; [done|]. split; [by rewrite lookup_delete_ne|done].
  - destruct (pending σ !! i) as [[msg|u]|]; [| |done];
      destruct r; by step_inv Hstep.
Qed.

Lemma run_keeps_orphan email id es σ σ' out :
  onlineUsers σ !! email = Some id →
  sockets σ !! id = None →
  (∀ c s u, sockets σ !! c = Some s → data_user s = Some u →
            user_email u ≠ email) →
  Forall (λ e, revives email id e = false) es →
  run es σ = Some (σ', out) →
  onlineUsers σ' !! email = Some id ∧ sockets σ' !! id = None.
Proof.
  intros Hentry Hgone Hnone Hes. revert σ out Hentry Hgone Hnone.
  induction Hes as [|e es He _ IH]; intros σ out Hentry Hgone Hnone Hrun.
  - cbn in Hrun. by simplify_eq.
  - apply run_cons in Hrun as (σ1 & o1 & o2 & Hstep & Hrest & _).
    destruct (step_keeps_orphan email id σ e σ1 o1) as (? & ? & ?); try done.
    by eapply IH.
Qed.
End presence.

(** C2, as stated, fails: after [A] has joined as [alice], joined again as
    [bob] and disconnected, no socket is connected and no call is pending,
    yet the entry of [a@x.com] still names [A].  No socket is in the window
    the spec allows, and the entry stays for as long as no socket joins as
    [a@x.com] again. *)
Lemma presence_entry_outlives_socket :
  fst <$> run identity_switch initial = Some orphaned
  ∧ ¬ (∀ σ, reachable σ →
         ∀ e c, onlineUsers σ !! e = Some c →
           is_Some (sockets σ !! c) ∨ overwrite_window σ e)
  ∧ (∀ es σ' out,
       Forall (λ e, revives "a@x.com" "A" e = false) es →
       run es orphaned = Some (σ', out) →
       onlineUsers σ' !! "a@x.com" = Some "A" ∧ sockets σ' !! "A" = None).
Proof.
  assert (Hrun : fst <$> run identity_switch initial = Some orphaned).
  { vm_compute. reflexivity. }
  split; [done|]. split.
  - intros Hclaim.
    destruct (run identity_switch initial) as [[σ out]|] eqn:Hσ; [|done].
    cbn in Hrun. simplify_eq.
    destruct (Hclaim orphaned (ex_intro _ _ (ex_intro _ _ Hσ)) "a@x.com" "A")
      as [[s Hs]|(c & s & u & Hs & _)]; [done| |];
      cbn in Hs; by rewrite lookup_empty in Hs.
  - intros es σ' out Hes Hrun'.
    by apply (run_keeps_orphan "a@x.com" "A" es orphaned σ' out).
Qed.

(** C2, amended. In every state reached by a run in which no socket joins
    again under an email other than the one it already carries, every
    presence entry names a connected socket, and that socket's identity
    carries the entry's email; no window of inconsistency is needed. *)
Theorem presence_consistent_without_identity_switch
    (es : list Event) (σ : Relay) (out : list Effect) :
  run es initial = Some (σ, out) →
  one_email_per_socket es initial = true →
  presence_live σ ∧ presence_registered σ.
Proof.
  intros Hrun Hone.
  assert (Hlive : presence_live σ).
  { apply (run_presence_live es initial σ out); [|done|done].
    intros e c Hentry. cbn in Hentry. by rewrite lookup_empty in Hentry. }
  split; [done|].
  intros e c (s & _ & Hs & _)%Hlive. eauto.
Qed.

Lemma presence_consistent_without_identity_switch_witness :
  presence_live chatting ∧ presence_registered chatting.
Proof.
  eapply (presence_consistent_without_identity_switch
            [Connection "X"; Connection "Y"; Connection "Z";
             Emit "X" (join_room "r1" alice); Emit "Y" (join_room "r1" bob)]
            chatting).
  - vm_compute. reflexivity.
  - vm_compute. reflexivity.
Defined.

(** * Further properties of the relay *)

Section relay_more.
Implicit Types (σ : Relay) (id c r : string) (e : Event) (out : list Effect).

Lemma recipients_app out1 out2 :
  recipients (out1 ++ out2) = recipients out1 ++ recipients out2.
Proof. apply omap_app. Qed.

Lemma recipients_emit_to cs ev : recipients (emit_to cs ev) = cs.
Proof.
  induction cs as [|c cs IH]; [done|].
  unfold recipients, emit_to in *. cbn. by rewrite IH.
Qed.

Lemma store_calls_emit_to cs ev : store_calls (emit_to cs ev) = [].
Proof. induction cs as [|c cs IH]; [done|]. exact IH. Qed.

Lemma store_calls_app out1 out2 :
  store_calls (out1 ++ out2) = store_calls out1 ++ store_calls out2.
Proof. apply omap_app. Qed.

(** A socket is put in its own room when it connects and no handler takes
    it out: the sender of a [socket.to] broadcast is always excepted. *)
Lemma step_own_rooms σ e σ' out :
  own_rooms σ → step e σ = Some (σ', out) → own_rooms σ'.
Proof.
  intros Hinv Hstep c s. destruct e as [id|id ev|id now|i t]; cbn in Hstep.
  - destruct (sockets σ !! id) eqn:Hid; [done|]. step_inv Hstep.
    rewrite lookup_insert. case_decide; [|apply Hinv].
    intros [= <-]. cbn. subst. by apply elem_of_singleton.
  - destruct (sockets σ !! id) as [s0|] eqn:Hid; [|done].
    destruct ev as [r u| | | | | |]; step_inv Hstep; try apply Hinv.
    destruct (decide (id = c)) as [<-|Hne].
    + rewrite !lookup_alter_eq, Hid. cbn. intros [= <-]. cbn.
      apply elem_of_union. right. by apply (Hinv id s0).
    + rewrite !lookup_alter_ne by done. apply Hinv.
  - destruct (sockets σ !! id) as [s0|] eqn:Hid; [|done].
    unfold on_disconnect in Hstep.
    destruct (data_user s0); step_inv Hstep;
      intros [_ Hs]%lookup_delete_Some; by apply (Hinv c).
  - destruct (pending σ !! i) as [[msg|u]|]; [| |done];
      destruct t; step_inv Hstep; apply Hinv.
Qed.

Lemma run_own_rooms es σ σ' out :
  own_rooms σ → run es σ = Some (σ', out) → own_rooms σ'.
Proof.
  revert σ out. induction es as [|e es IH]; intros σ out Hinv Hrun.
  - cbn in Hrun. by simplify_eq.
  - apply run_cons in Hrun as (σ1 & o1 & o2 & Hstep & Hrest & _).
    eapply IH; [|done]. by eapply step_own_rooms.
Qed.

Lemma reachable_own_room σ id :
  reachable σ → is_Some (sockets σ !! id) → is_member σ id id = true.
Proof.
  intros (es & out & Hrun) [s Hs].
  assert (Hown : own_rooms σ).
  { apply (run_own_rooms es initial σ out); [|done].
    intros c s' Hc. cbn in Hc. by rewrite lookup_empty in Hc. }
  unfold is_member. rewrite Hs. apply bool_decide_eq_true_2. by apply (Hown id).
Qed.

Lemma settled_suspended σ t : settled (length (pending σ)) (suspended t σ) = σ.
Proof.
  destruct σ as [ss ou p]. unfold settled, suspended; cbn. f_equal.
  rewrite (delete_middle p [] t). apply app_nil_r.
Qed.
End relay_more.



Lemma step_keeps_membership (σ σ' : Relay) (e : Event) (out : list Effect)
    (r c : string) :
  is_member σ r c = true →
  ends_socket c e = false →
  step e σ = Some (σ', out) →
  is_member σ' r c = true.
Proof.
  unfold is_member. intros Hm Hend Hstep.
  destruct (sockets σ !! c) as [s|] eqn:Hc; [|done].
  destruct e as [id|id ev|id now|i t]; cbn in *.
  - destruct (sockets σ !! id) eqn:Hid; [done|]. step_inv Hstep.
    rewrite lookup_insert_ne by congruence. by rewrite Hc.
  - destruct (sockets σ !! id) as [s0|] eqn:Hid; [|done].
    destruct ev as [r' u| | | | | |]; step_inv Hstep; try by rewrite Hc.
    destruct (decide (id = c)) as [->|Hne].
    + rewrite !lookup_alter_eq, Hc. cbn.
      apply bool_decide_eq_true in Hm. apply bool_decide_eq_true_2. set_solver.
    + rewrite !lookup_alter_ne by done. by rewrite Hc.
  - apply bool_decide_eq_false in Hend.
    destruct (sockets σ !! id) as [s0|] eqn:Hid; [|done].
    unfold on_disconnect in Hstep.
    destruct (data_user s0); step_inv Hstep;
      rewrite lookup_delete_ne by done; by rewrite Hc.
  - destruct (pending σ !! i) as [[msg|u]|]; [| |done];
      destruct t; step_inv Hstep; by rewrite Hc.
Qed.

(** X2. No handler takes a socket out of a room: a socket that is a member
    of a room stays connected and a member of it through every run that
    does not contain its own disconnect. *)
Theorem membership_kept_until_disconnect
    (es : list Event) (σ σ' : Relay) (out : list Effect) (r c : string) :
  is_member σ r c = true →
  Forall (λ e, ends_socket c e = false) es →
  run es σ = Some (σ', out) →
  is_member σ' r c = true.
Proof.
  intros Hm Hes. revert σ out Hm.
  induction Hes as [|e es He _ IH]; intros σ out Hm Hrun.
  - cbn in Hrun. by simplify_eq.
  - apply run_cons in Hrun as (σ1 & o1 & o2 & Hstep & Hrest & _).
    eapply IH; [|done]. by eapply step_keeps_membership.
Qed.

Lemma membership_kept_until_disconnect_witness :
  is_member (offline "X" alice chatting) "r1" "Y" = true.
Proof.
  eapply (membership_kept_until_disconnect
            [Emit "Y" (typing_in "r1" true "B"); Disconnect "X" "t"] chatting _
            _ "r1" "Y").
  - reflexivity.
  - repeat constructor.
  - vm_compute. reflexivity.
Defined.

(** X3. Whatever the event, a step delivers only to sockets that are
    connected once the step is done: no handler emits to a socket that has
    disconnected, the disconnecting socket included. *)
Theorem deliveries_reach_connected_sockets
    (σ σ' : Relay) (e : Event) (out : list Effect) (c : string) :
  step e σ = Some (σ', out) →
  c ∈ recipients out →
  is_Some (sockets σ' !! c).
Proof.
  intros Hstep.
  assert (Hroom : ∀ τ r ev, c ∈ recipients (emit_to (in_room τ r) ev) →
                            is_Some (sockets τ !! c)).
  { intros τ r ev. rewrite recipients_emit_to, elem_of_in_room.
    apply is_member_connected. }
  assert (Hothers : ∀ τ id r ev,
            c ∈ recipients
                  (emit_to (filter (λ c', is_member τ id c' = false)
                              (in_room τ r)) ev) →
            is_Some (sockets τ !! c)).
  { intros τ id r ev. rewrite recipients_emit_to, list_elem_of_filter.
    rewrite elem_of_in_room. intros [_ Hm]. by eapply is_member_connected. }
  assert (Hall : ∀ τ ev, c ∈ recipients (emit_to (io_sockets τ) ev) →
                         is_Some (sockets τ !! c)).
  { intros τ ev. by rewrite recipients_emit_to, elem_of_io_sockets. }
  destruct e as [id|id ev|id now|i t]; cbn in Hstep.
  - destruct (sockets σ !! id); [done|]. step_inv Hstep. by intros ?%elem_of_nil.
  - destruct (sockets σ !! id) as [s0|]; [|done].
    destruct ev as [r u|r b n|msg|info|r sdp|r sdp|r cand]; step_inv Hstep.
    + rewrite recipients_app, app_nil_r. apply Hroom.
    + apply Hothers.
    + by intros ?%elem_of_nil.
    + apply Hall.
    + apply Hothers.
    + apply Hothers.
    + apply Hothers.
  - destruct (sockets σ !! id) as [s0|]; [|done].
    unfold on_disconnect in Hstep. destruct (data_user s0); step_inv Hstep.
    + rewrite recipients_app, app_nil_r. intros Hc.
      by apply (Hall (offline id u σ)) in Hc.
    + by intros ?%elem_of_nil.
  - destruct (pending σ !! i) as [[msg|u]|]; [| |done];
      destruct t; step_inv Hstep; try by intros ?%elem_of_nil.
    intros Hc. by apply (Hroom (settled i σ)) in Hc.
Qed.

Lemma deliveries_reach_connected_sockets_witness :
  is_Some (sockets (offline "X" alice chatting) !! "Z").
Proof.
  eapply (deliveries_reach_connected_sockets chatting _ (Disconnect "X" "t") _ "Z").
  - vm_compute. reflexivity.
  - vm_compute. apply list_elem_of_In. right. left. reflexivity.
Defined.

(** X4. The store is called by two handlers only: [send_message] starts one
    insert of the message's row, and the disconnect of a socket that has an
    identity starts one last-seen update with its email and the timestamp;
    every other step, the resumptions included, calls nothing. *)
Theorem store_called_by_send_and_disconnect_only
    (σ σ' : Relay) (e : Event) (out : list Effect) :
  step e σ = Some (σ', out) →
  store_calls out
  = match e with
    | Emit _ (send_message msg) => [insert_message (row_of msg)]
    | Disconnect id now =>
        match sockets σ !! id ≫= data_user with
        | Some u => [update_last_seen (user_email u) now]
        | None => []
        end
    | _ => []
    end.
Proof.
  intros Hstep. destruct e as [id|id ev|id now|i t]; cbn in Hstep.
  - destruct (sockets σ !! id); [done|]. by step_inv Hstep.
  - destruct (sockets σ !! id) as [s0|]; [|done].
    destruct ev; step_inv Hstep;
      rewrite ?store_calls_app, ?store_calls_emit_to; done.
  - destruct (sockets σ !! id) as [s0|]; [|done]. cbn.
    unfold on_disconnect in Hstep. destruct (data_user s0); step_inv Hstep.
    + by rewrite store_calls_app, store_calls_emit_to.
    + done.
  - destruct (pending σ !! i) as [[msg|u]|]; [| |done];
      destruct t; step_inv Hstep; rewrite ?store_calls_emit_to; done.
Qed.

Lemma store_called_by_send_and_disconnect_only_witness :
  store_calls
    (emit_to (io_sockets (offline "X" alice chatting))
       (user_offline "a@x.com" "t")
     ++ [Store (update_last_seen "a@x.com" "t")])
  = match sockets chatting !! "X" ≫= data_user with
    | Some u => [update_last_seen (user_email u) "t"]
    | None => []
    end.
Proof.
  apply (store_called_by_send_and_disconnect_only
           chatting (offline "X" alice chatting) (Disconnect "X" "t")).
  vm_compute. reflexivity.
Defined.

(** X5. [join-room] is idempotent on the state: a socket that joins the same
    room as the same user twice in a row is left, with the presence map,
    exactly as after the first join; the second join repeats the same
    [user_online] broadcast. *)
Theorem join_room_twice_same_state (σ : Relay) (id r : string) (u : User) :
  is_Some (sockets σ !! id) →
  ∃ σ1 out1,
    step (Emit id (join_room r u)) σ = Some (σ1, out1)
    ∧ step (Emit id (join_room r u)) σ1 = Some (σ1, out1).
Proof.
  intros Hid. eexists _, _. split; [by apply step_join_room|].
  assert (Hid1 : is_Some (sockets (joined id r u σ) !! id)).
  { rewrite joined_lookup, decide_True by done. by apply fmap_is_Some. }
  assert (Hsame : joined id r u (joined id r u σ) = joined id r u σ).
  { unfold joined; cbn [sockets onlineUsers pending]. f_equal.
    - apply map_eq. intros c. destruct (decide (id = c)) as [<-|Hne].
      + rewrite !lookup_alter_eq. destruct (sockets σ !! id) as [s|]; [|done].
        cbn. do 2 f_equal. by rewrite (assoc_L (∪)), (union_idemp_L {[r]}).
      + by rewrite !lookup_alter_ne.
    - apply insert_insert_eq. }
  rewrite step_join_room by done. by rewrite Hsame.
Qed.

Lemma join_room_twice_same_state_witness :
  ∃ σ1 out1,
    step (Emit "X" (join_room "r1" alice)) lobby = Some (σ1, out1)
    ∧ step (Emit "X" (join_room "r1" alice)) σ1 = Some (σ1, out1).
Proof.
  apply (join_room_twice_same_state lobby "X" "r1" alice).
  exists {| rooms := {[ "X" ]}; data_user := None |}. vm_compute. reflexivity.
Defined.

(** X6. A socket that connects and disconnects without joining leaves the
    relay exactly as it was: same sockets, same presence, same pending
    calls; the only effect of the two steps is the "connected" log line. *)
Theorem connect_disconnect_restores_state (σ : Relay) (id now : string) :
  sockets σ !! id = None →
  run [Connection id; Disconnect id now] σ = Some (σ, [Log (log_connected id)]).
Proof.
  intros Hid. cbn [run]. unfold step at 1. rewrite Hid.
  cbv [exec on_connection modify console tell mbind Handler_bind].
  rewrite (step_disconnect_unjoined _ id now {| rooms := {[id]}; data_user := None |})
    by (by cbn; rewrite ?lookup_insert_eq).
  unfold dropped; cbn. rewrite delete_insert_eq, delete_id by done.
  by destruct σ.
Qed.

Lemma connect_disconnect_restores_state_witness :
  run [Connection "W"; Disconnect "W" "t"] chatting
  = Some (chatting, [Log (log_connected "W")]).
Proof.
  apply (connect_disconnect_restores_state chatting "W" "t").
  vm_compute. reflexivity.
Defined.

(** X7. A [send_message] whose insert settles right away leaves the relay
    state exactly as it was, pending calls included.  Its effects are the
    insert followed, on success, by [receive_message] to the members of the
    room and, on failure, by one log line: "insert error" for an [error] in
    the result, "send error" for a rejection. *)
Theorem send_then_settle_restores_state
    (σ : Relay) (id : string) (msg : Message) (r : StoreResult) :
  is_Some (sockets σ !! id) →
  run [Emit id (send_message msg); Settle (length (pending σ)) r] σ
  = Some (σ,
          Store (insert_message (row_of msg))
          :: match r with
             | StoreOk => emit_to (in_room σ (roomId msg)) (receive_message msg)
             | StoreError err => [Log (log_insert_error err)]
             | StoreThrows err => [Log (log_send_error err)]
             end).
Proof.
  intros Hid. cbn [run]. rewrite step_send_message by done.
  assert (Hi : pending (suspended (AwaitInsert msg) σ) !! length (pending σ)
               = Some (AwaitInsert msg)).
  { cbn. by rewrite lookup_app_r, Nat.sub_diag. }
  cbn [exits existsb orb].
  destruct r as [|err|err].
  - rewrite (step_settle_insert_ok _ _ msg Hi), settled_suspended.
    by rewrite exits_emit_to, !app_nil_r.
  - rewrite (step_settle_insert_failed _ _ msg (StoreError err) Hi) by done.
    by rewrite settled_suspended.
  - rewrite (step_settle_insert_failed _ _ msg (StoreThrows err) Hi) by done.
    by rewrite settled_suspended.
Qed.

Lemma send_then_settle_restores_state_witness :
  run [Emit "X" (send_message hello); Settle (length (pending lurking))
                                        (StoreThrows "network")] lurking
  = Some (lurking,
          [Store (insert_message (row_of hello)); Log (log_send_error "network")]).
Proof.
  apply (send_then_settle_restores_state lurking "X" hello (StoreThrows "network")).
  exists {| rooms := {[ "r1"; "X" ]}; data_user := Some alice |}.
  vm_compute. reflexivity.
Defined.

(** X8. The disconnect of a joined user followed by its last-seen update:
    when the update settles with an [error] the run is the same as when it
    succeeds (the error is not logged, only the "disconnected" line is
    written) and the server goes on; when the update is rejected, the
    listener does not catch it and the process ends, after the
    [user_offline] broadcast and the removal of the presence entry, and no
    later event is handled. *)
Theorem rejected_last_seen_update_ends_process
    (σ : Relay) (id now err : string) (s : Socket) (u : User) :
  sockets σ !! id = Some s →
  data_user s = Some u →
  let gone := settled (length (pending σ)) (offline id u σ) in
  let announced :=
    emit_to (io_sockets (offline id u σ)) (user_offline (user_email u) now)
    ++ [Store (update_last_seen (user_email u) now)] in
  run [Disconnect id now; Settle (length (pending σ)) StoreOk] σ
  = Some (gone, announced ++ [Log (log_disconnected (user_name u))])
  ∧ run [Disconnect id now; Settle (length (pending σ)) (StoreError err)] σ
    = run [Disconnect id now; Settle (length (pending σ)) StoreOk] σ
  ∧ run [Disconnect id now; Settle (length (pending σ)) (StoreThrows err)] σ
    = Some (gone, announced ++ [Exit err])
  ∧ ∀ e es,
      run (Disconnect id now :: Settle (length (pending σ)) (StoreThrows err)
           :: e :: es) σ = None.
Proof.
  intros Hs Hu gone announced.
  assert (Hi : pending (offline id u σ) !! length (pending σ)
               = Some (AwaitUpdate u)).
  { cbn. by rewrite lookup_app_r, Nat.sub_diag. }
  assert (Hlive : exits announced = false).
  { unfold announced. by rewrite exits_app, exits_emit_to. }
  assert (Hsettle : ∀ r es,
    run (Disconnect id now :: Settle (length (pending σ)) r :: es) σ
    = match r, es with
      | StoreThrows err', [] => Some (gone, announced ++ [Exit err'])
      | StoreThrows _, _ :: _ => None
      | _, _ =>
          match run es gone with
          | Some (σ2, out2) =>
              Some (σ2, announced
                        ++ [Log (log_disconnected (user_name u))] ++ out2)
          | None => None
          end
      end).
  { intros r es.
    rewrite (run_step _ _ σ _ _ (step_disconnect_joined σ id now s u Hs Hu) Hlive).
    fold announced. cbn [run]. rewrite (step_settle_update _ _ u r Hi).
    fold gone. destruct r; cbn [exits existsb orb].
    - by destruct (run es gone) as [[σ2 out2]|].
    - by destruct (run es gone) as [[σ2 out2]|].
    - by destruct es. }
  split; [|split; [|split]].
  - by rewrite Hsettle.
  - by rewrite !Hsettle.
  - by rewrite Hsettle.
  - intros e es. by rewrite Hsettle.
Qed.

Lemma rejected_last_seen_update_ends_process_witness :
  let gone := settled (length (pending chatting)) (offline "X" alice chatting) in
  let announced :=
    emit_to (io_sockets (offline "X" alice chatting))
      (user_offline (user_email alice) "t")
    ++ [Store (update_last_seen (user_email alice) "t")] in
  run [Disconnect "X" "t"; Settle (length (pending chatting)) StoreOk] chatting
  = Some (gone, announced ++ [Log (log_disconnected (user_name alice))])
  ∧ run [Disconnect "X" "t";
         Settle (length (pending chatting)) (StoreError "timeout")] chatting
    = run [Disconnect "X" "t"; Settle (length (pending chatting)) StoreOk]
        chatting
  ∧ run [Disconnect "X" "t";
         Settle (length (pending chatting)) (StoreThrows "timeout")] chatting
    = Some (gone, announced ++ [Exit "timeout"])
  ∧ ∀ e es,
      run (Disconnect "X" "t"
           :: Settle (length (pending chatting)) (StoreThrows "timeout")
           :: e :: es) chatting = None.
Proof.
  apply (rejected_last_seen_update_ends_process chatting "X" "t" "timeout"
           {| rooms := {[ "r1"; "X" ]}; data_user := Some alice |} alice).
  - vm_compute. reflexivity.
  - reflexivity.
Defined.

Lemma is_member_suspended (σ : Relay) (t : Task) (r c : string) :
  is_member (suspended t σ) r c = is_member σ r c.
Proof. reflexivity. Qed.

Lemma is_member_offline (σ : Relay) (id : string) (u : User) (r c : string) :
  is_member (offline id u σ) r c = is_member σ r c && bool_decide (c ≠ id).
Proof.
  unfold is_member, offline; cbn. destruct (decide (c = id)) as [->|Hne].
  - rewrite lookup_delete_eq, (bool_decide_eq_false_2 (id ≠ id)) by tauto.
    by rewrite andb_false_r.
  - rewrite lookup_delete_ne, (bool_decide_eq_true_2 (c ≠ id)) by done.
    by rewrite andb_true_r.
Qed.

Lemma is_member_dropped (σ : Relay) (id r c : string) :
  is_member (dropped id σ) r c = is_member σ r c && bool_decide (c ≠ id).
Proof.
  unfold is_member, dropped; cbn. destruct (decide (c = id)) as [->|Hne].
  - rewrite lookup_delete_eq, (bool_decide_eq_false_2 (id ≠ id)) by tauto.
    by rewrite andb_false_r.
  - rewrite lookup_delete_ne, (bool_decide_eq_true_2 (c ≠ id)) by done.
    by rewrite andb_true_r.
Qed.

(** X9. The recipients of a message are the members of the room when its
    insert settles, not when it was sent: a socket that joins the room while
    the insert is in flight receives its own [user_online] and then the
    message, once each. *)
Theorem late_joiner_receives_pending_message
    (σ : Relay) (X Y : string) (msg : Message) (u : User) :
  is_Some (sockets σ !! X) →
  is_Some (sockets σ !! Y) →
  ∃ out,
    run [Emit X (send_message msg); Emit Y (join_room (roomId msg) u);
         Settle (length (pending σ)) StoreOk] σ
    = Some (joined Y (roomId msg) u σ, out)
    ∧ deliveries_to Y out
      = [user_online (user_email u); receive_message msg].
Proof.
  intros HX HY. set (t := AwaitInsert msg). set (r := roomId msg).
  assert (Hm : is_member (joined Y r u σ) r Y = true).
  { rewrite joined_is_member by done.
    rewrite (bool_decide_eq_true_2 (Y = Y)) by done. apply orb_true_r. }
  assert (Hfinal : settled (length (pending σ)) (joined Y r u (suspended t σ))
                   = joined Y r u σ).
  { unfold settled, joined, suspended; cbn. f_equal.
    rewrite (delete_middle (pending σ) [] t). apply app_nil_r. }
  eexists. split.
  - cbn [run]. rewrite step_send_message by done.
    rewrite step_join_room by done.
    rewrite (step_settle_insert_ok _ _ msg)
      by (by cbn; rewrite lookup_app_r, Nat.sub_diag).
    fold t r. rewrite Hfinal, !exits_app, !exits_emit_to. reflexivity.
  - fold r t. change (Store ?c :: ?l) with ([Store c] ++ l).
    rewrite !deliveries_to_app, !deliveries_io_to.
    change (is_member (joined Y r u (suspended t σ)) r Y)
      with (is_member (joined Y r u σ) r Y).
    by rewrite Hm.
Qed.

Lemma late_joiner_receives_pending_message_witness :
  ∃ out,
    run [Emit "X" (send_message hello); Emit "Z" (join_room (roomId hello) bob);
         Settle (length (pending chatting)) StoreOk] chatting
    = Some (joined "Z" (roomId hello) bob chatting, out)
    ∧ deliveries_to "Z" out
      = [user_online (user_email bob); receive_message hello].
Proof.
  apply (late_joiner_receives_pending_message chatting "X" "Z" hello bob).
  - exists {| rooms := {[ "r1"; "X" ]}; data_user := Some alice |}.
    vm_compute. reflexivity.
  - exists {| rooms := {[ "Z" ]}; data_user := None |}. vm_compute. reflexivity.
Defined.

(** X10. A message outlives its sender: when the sender disconnects while
    the insert is in flight and the insert then succeeds, the message is
    still delivered, once, to each socket that is a member of the room at
    that moment; the sender, gone, receives nothing.  Before it, each socket
    still connected gets the [user_offline] of the sender if the sender had
    an identity. *)
Theorem message_delivered_after_sender_left
    (σ : Relay) (X now : string) (s : Socket) (msg : Message) :
  sockets σ !! X = Some s →
  ∃ σ' out,
    run [Emit X (send_message msg); Disconnect X now;
         Settle (length (pending σ)) StoreOk] σ = Some (σ', out)
    ∧ sockets σ' = delete X (sockets σ)
    ∧ deliveries_to X out = []
    ∧ ∀ c, deliveries_to c out
           = match data_user s with
             | Some u =>
                 if bool_decide (is_Some (sockets σ !! c) ∧ c ≠ X)
                 then [user_offline (user_email u) now] else []
             | None => []
             end
             ++ if is_member σ (roomId msg) c && bool_decide (c ≠ X)
                then [receive_message msg] else [].
Proof.
  intros Hs. set (t := AwaitInsert msg). set (r := roomId msg).
  assert (HX : is_Some (sockets σ !! X)) by eauto.
  assert (Hgone : ∀ c, bool_decide (is_Some (delete X (sockets σ) !! c))
                       = bool_decide (is_Some (sockets σ !! c) ∧ c ≠ X)).
  { intros c. apply bool_decide_ext. rewrite lookup_delete_is_Some.
    split; intros [H1 H2]; split; congruence. }
  assert (Hall : ∀ out,
    (∀ c, deliveries_to c out
           = match data_user s with
             | Some u =>
                 if bool_decide (is_Some (sockets σ !! c) ∧ c ≠ X)
                 then [user_offline (user_email u) now] else []
             | None => []
             end
             ++ if is_member σ r c && bool_decide (c ≠ X)
                then [receive_message msg] else []) →
    deliveries_to X out = []).
  { intros out ->. rewrite (bool_decide_eq_false_2 (X ≠ X)) by tauto.
    rewrite andb_false_r, app_nil_r. destruct (data_user s); [|done].
    rewrite bool_decide_eq_false_2; [done|]. tauto. }
  destruct (data_user s) as [u|] eqn:Hu.
  - eexists _, _. split.
    { cbn [run]. rewrite step_send_message by done.
      rewrite (step_disconnect_joined _ X now s u) by done.
      rewrite (step_settle_insert_ok _ _ msg).
      - rewrite ?exits_app, ?exits_emit_to. reflexivity.
      - cbn. rewrite <- (assoc_L (++)). apply list_lookup_middle. done. }
    split; [done|].
    assert (∀ c, deliveries_to c
        ([Store (insert_message (row_of msg))]
         ++ (emit_to (io_sockets (offline X u (suspended t σ)))
               (user_offline (user_email u) now)
             ++ [Store (update_last_seen (user_email u) now)])
         ++ emit_to (in_room (settled (length (pending σ))
                                (offline X u (suspended t σ))) r)
              (receive_message msg) ++ [])
      = (if bool_decide (is_Some (sockets σ !! c) ∧ c ≠ X)
         then [user_offline (user_email u) now] else [])
        ++ if is_member σ r c && bool_decide (c ≠ X)
           then [receive_message msg] else []) as Hc.
    { intros c.
      rewrite !deliveries_to_app, deliveries_io_emit, deliveries_io_to.
      cbn [sockets offline suspended]. rewrite Hgone.
      change (is_member (settled _ (offline X u (suspended t σ))) ?a ?b)
        with (is_member (offline X u σ) a b).
      rewrite is_member_offline. cbn. by rewrite !app_nil_r. }
    split; [by apply Hall | exact Hc].
  - eexists _, _. split.
    { cbn [run]. rewrite step_send_message by done.
      rewrite (step_disconnect_unjoined _ X now s) by done.
      rewrite (step_settle_insert_ok _ _ msg)
        by (by cbn; rewrite lookup_app_r, Nat.sub_diag).
      rewrite ?exits_app, ?exits_emit_to. reflexivity. }
    split; [done|].
    assert (∀ c, deliveries_to c
        ([Store (insert_message (row_of msg))] ++ []
         ++ emit_to (in_room (settled (length (pending σ))
                                (dropped X (suspended t σ))) r)
              (receive_message msg) ++ [])
      = [] ++ if is_member σ r c && bool_decide (c ≠ X)
              then [receive_message msg] else []) as Hc.
    { intros c. rewrite !deliveries_to_app, deliveries_io_to.
      change (is_member (settled _ (dropped X (suspended t σ))) ?a ?b)
        with (is_member (dropped X σ) a b).
      rewrite is_member_dropped. cbn. by rewrite !app_nil_r. }
    split; [by apply Hall | exact Hc].
Qed.

Lemma message_delivered_after_sender_left_witness :
  ∃ σ' out,
    run [Emit "X" (send_message hello); Disconnect "X" "t";
         Settle (length (pending chatting)) StoreOk] chatting = Some (σ', out)
    ∧ sockets σ' = delete "X" (sockets chatting)
    ∧ deliveries_to "X" out = []
    ∧ ∀ c, deliveries_to c out
           = match data_user {| rooms := {[ "r1"; "X" ]};
                                data_user := Some alice |} with
             | Some u =>
                 if bool_decide (is_Some (sockets chatting !! c) ∧ c ≠ "X")
                 then [user_offline (user_email u) "t"] else []
             | None => []
             end
             ++ if is_member chatting (roomId hello) c && bool_decide (c ≠ "X")
                then [receive_message hello] else [].
Proof.
  apply (message_delivered_after_sender_left chatting "X" "t"
           {| rooms := {[ "r1"; "X" ]}; data_user := Some alice |} hello).
  vm_compute. reflexivity.
Defined.

Section exact_presence.
Implicit Types (σ : Relay) (e : Event) (es : list Event).

Lemma shares_email_false σ id r u c s :
  shares_email σ (Emit id (join_room r u)) = false →
  sockets σ !! c = Some s →
  c ≠ id →
  carries (user_email u) s = false.
Proof.
  cbn. intros Hno%bool_decide_eq_false Hs Hne.
  destruct (carries (user_email u) s) eqn:Hcar; [|done].
  destruct Hno. apply map_Exists_lookup. by exists c, s.
Qed.

Lemma step_presence_complete σ e σ' out :
  presence_complete σ →
  shares_email σ e = false →
  step e σ = Some (σ', out) →
  presence_complete σ'.
Proof.
  intros Hinv Hsh Hstep c s u. destruct e as [id|id ev|id now|i t].
  - cbn in Hstep. destruct (sockets σ !! id) eqn:Hid; [done|]. step_inv Hstep.
    rewrite lookup_insert. case_decide; [by intros [= <-]|]. apply Hinv.
  - cbn in Hstep. destruct (sockets σ !! id) as [s0|] eqn:Hid; [|done].
    destruct ev as [r u'| | | | | |]; step_inv Hstep; try apply Hinv.
    destruct (decide (id = c)) as [<-|Hne].
    + rewrite !lookup_alter_eq, Hid. cbn. intros [= <-]. cbn. intros [= <-].
      apply lookup_insert_eq.
    + rewrite !lookup_alter_ne by done. intros Hs Hu.
      assert (Hcar : carries (user_email u') s = false).
      { by apply (shares_email_false σ id r u' c s). }
      unfold carries in Hcar. rewrite Hu in Hcar.
      apply bool_decide_eq_false in Hcar.
      rewrite lookup_insert_ne by done. by apply (Hinv c s).
  - cbn in Hstep. destruct (sockets σ !! id) as [s0|] eqn:Hid; [|done].
    unfold on_disconnect in Hstep.
    destruct (data_user s0) as [u0|] eqn:Hu0; step_inv Hstep.
    + intros [Hne Hs]%lookup_delete_Some Hu.
      pose proof (Hinv c s u Hs Hu) as Hc.
      rewrite lookup_delete_ne; [done|].
      intros Heq. pose proof (Hinv id s0 u0 Hid Hu0) as H0.
      rewrite Heq in H0. congruence.
    + intros [Hne Hs]%lookup_delete_Some. by apply Hinv.
  - cbn in Hstep. destruct (pending σ !! i) as [[msg|u']|]; [| |done];
      destruct t; step_inv Hstep; apply Hinv.
Qed.

Lemma run_presence_complete es σ σ' out :
  presence_complete σ →
  one_socket_per_email es σ = true →
  run es σ = Some (σ', out) →
  presence_complete σ'.
Proof.
  revert σ out. induction es as [|e es IH]; intros σ out Hinv Hone Hrun.
  - cbn in Hrun. by simplify_eq.
  - apply run_cons in Hrun as (σ1 & o1 & o2 & Hstep & Hrest & _).
    cbn in Hone. rewrite Hstep in Hone.
    apply andb_true_iff in Hone as [Hsh Hone]. apply negb_true_iff in Hsh.
    eapply IH; [|done|done]. by eapply step_presence_complete.
Qed.
End exact_presence.

(** X11. Presence is exact when identities are exclusive: in every state
    reached by a run in which no socket joins under an email that another
    connected socket carries, and no socket changes its email, the presence
    entry of an email points at a socket exactly when that socket is
    connected and its identity carries the email.  So [isOnline(e)] holds
    exactly when some connected socket has joined as [e]. *)
Theorem presence_exact_for_exclusive_identities
    (es : list Event) (σ : Relay) (out : list Effect) :
  run es initial = Some (σ, out) →
  one_email_per_socket es initial = true →
  one_socket_per_email es initial = true →
  (∀ e c, onlineUsers σ !! e = Some c
          ↔ ∃ s, sockets σ !! c = Some s ∧ carries e s = true)
  ∧ (∀ e, isOnline e σ = true
          ↔ ∃ c s, sockets σ !! c = Some s ∧ carries e s = true).
Proof.
  intros Hrun Hone Hexcl.
  assert (Hlive : presence_live σ).
  { apply (run_presence_live es initial σ out); [|done|done].
    intros e c Hentry. cbn in Hentry. by rewrite lookup_empty in Hentry. }
  assert (Hcomplete : presence_complete σ).
  { apply (run_presence_complete es initial σ out); [|done|done].
    intros c s u Hs. cbn in Hs. by rewrite lookup_empty in Hs. }
  assert (Hentry : ∀ e c, onlineUsers σ !! e = Some c
                    ↔ ∃ s, sockets σ !! c = Some s ∧ carries e s = true).
  { intros e c. unfold carries. split.
    - intros (s & u & Hs & Hu & <-)%Hlive. exists s. split; [done|].
      rewrite Hu. by apply bool_decide_eq_true_2.
    - intros (s & Hs & Hcar). destruct (data_user s) as [u|] eqn:Hu; [|done].
      apply bool_decide_eq_true in Hcar as <-. by apply (Hcomplete c s). }
  split; [done|].
  intros e. unfold isOnline. rewrite bool_decide_eq_true. split.
  - intros [c Hc]. exists c. by apply Hentry.
  - intros (c & s & Hs & Hcar). exists c. apply Hentry. eauto.
Qed.

Lemma presence_exact_for_exclusive_identities_witness :
  (∀ e c, onlineUsers chatting !! e = Some c
          ↔ ∃ s, sockets chatting !! c = Some s ∧ carries e s = true)
  ∧ (∀ e, isOnline e chatting = true
          ↔ ∃ c s, sockets chatting !! c = Some s ∧ carries e s = true).
Proof.
  eapply (presence_exact_for_exclusive_identities
            [Connection "X"; Connection "Y"; Connection "Z";
             Emit "X" (join_room "r1" alice); Emit "Y" (join_room "r1" bob)]
            chatting).
  - vm_compute. reflexivity.
  - vm_compute. reflexivity.
  - vm_compute. reflexivity.
Defined.

(** * Properties of the admin API *)

Section admin_facts.
Import Admin.
Implicit Types (penv : ProcessEnv) (w : World) (req : Request) (route : Route).

Lemma perform_returns {A : Type} (P : A → Prop) w (p : Prog A) t a :
  returns_only P p → perform w p = (t, inl a) → P a ∧ rejected t = false.
Proof.
  revert t. induction p as [a'|err|X c k IH]; cbn; intros t HP Hrun.
  - by simplify_eq.
  - done.
  - destruct (w X c) as [x|err]; [|by simplify_eq].
    destruct (perform w (k x)) as [t' r] eqn:Hk. simplify_eq.
    by apply (IH x t').
Qed.

(** The steps of a run are calls; the log line comes from [catch]. *)
Lemma perform_calls_only {A : Type} w (p : Prog A) t r label err :
  perform w p = (t, r) → Logged label err ∉ t.
Proof.
  revert t. induction p as [a'|err'|X c k IH]; cbn; intros t Hrun.
  - simplify_eq. apply not_elem_of_nil.
  - simplify_eq. apply not_elem_of_nil.
  - destruct (w X c) as [x|err'].
    + destruct (perform w (k x)) as [t' r'] eqn:Hk. simplify_eq.
      apply not_elem_of_cons. split; [done|]. by eapply IH.
    + simplify_eq. apply not_elem_of_cons. split; [done|apply not_elem_of_nil].
Qed.

Lemma perform_rejected {A : Type} w (p : Prog A) t err :
  never_throws p →
  perform w p = (t, inr err) →
  ∀ label, rejected (t ++ [Logged label err]) = true.
Proof.
  revert t. induction p as [a'|err'|X c k IH]; cbn; intros t Hnt Hrun.
  - by simplify_eq.
  - done.
  - destruct (w X c) as [x|err']; [|by simplify_eq].
    destruct (perform w (k x)) as [t' r] eqn:Hk. simplify_eq.
    by apply (IH x t').
Qed.

Lemma serve_program penv w route req p :
  program penv route req = Some p →
  ∃ b, serve penv w route req = try_catch (error_label route) b w p
       ∧ (b = msg "Server error" ∨ b = error_body "Server error").
Proof.
  destruct route; cbn; intros; simplify_eq; eexists; split; eauto.
Qed.

Lemma program_statuses penv route req p :
  program penv route req = Some p →
  returns_only (λ res, status res ∈ [200; 400; 403]) p.
Proof.
  assert (H200 : 200 ∈ [200; 400; 403]) by (apply list_elem_of_In; cbn; tauto).
  assert (H400 : 400 ∈ [200; 400; 403]) by (apply list_elem_of_In; cbn; tauto).
  assert (H403 : 403 ∈ [200; 400; 403]) by (apply list_elem_of_In; cbn; tauto).
  destruct req as [rid [b|]], route; cbn; intros; simplify_eq; try done.
  - intros [[u|] [m|]]; cbn; try done.
    case_bool_decide; cbn; [done|]. intros [|]; cbn; done.
  - unfold create_user. cbn.
    destruct (negb (truthy (body_name b)) || negb (truthy (body_email b)));
      cbn; [done|].
    intros pw h [m|]; cbn; [done|]. intros [m|]; cbn; done.
  - intros [d [m|]]; cbn; done.
  - unfold put_user. cbn.
    destruct (negb (truthy (body_name b)) || negb (truthy (body_email b)));
      cbn; [done|].
    intros [m|]; cbn; done.
  - intros [m|]; cbn; done.
  - intros [d [m|]]; cbn; done.
  - intros [m|]; cbn; done.
Qed.

(** With a body, or on a route that does not read it, no statement of the
    handler throws. *)
Lemma program_never_throws penv route req p :
  program penv route req = Some p →
  reads_body route = false ∨ is_Some (req_body req) →
  never_throws p.
Proof.
  intros Hp [Hroute|[b Hb]].
  - destruct route; try done; cbn in Hp; simplify_eq.
    + by intros [d [m|]].
    + by intros [m|].
  - destruct req as [rid body]. cbn in Hb. subst body.
    destruct route; cbn in Hp; simplify_eq.
    + intros [[u|] [m|]]; cbn; try done.
      case_bool_decide; cbn; [done|]. by intros [|].
    + unfold create_user. cbn.
      destruct (negb (truthy (body_name b)) || negb (truthy (body_email b)));
        cbn; [done|].
      intros pw h [m|]; cbn; [done|]. by intros [m|].
    + by intros [d [m|]].
    + unfold put_user. cbn.
      destruct (negb (truthy (body_name b)) || negb (truthy (body_email b)));
        cbn; [done|].
      by intros [m|].
    + by intros [m|].
Qed.

(** Without a body, a route that reads it throws before any call. *)
Lemma serve_bodiless penv w route rid :
  reads_body route = true →
  ∃ err,
    serve penv w route (mkRequest rid None)
    = ([Logged (error_label route) err], status_json 500 (msg "Server error")).
Proof. destruct route; try done; intros _; by eexists. Qed.


(** X13. Admin login reads the body, then asks the store, then compares
    the password, then signs.  Without a body nothing is called and the
    answer is 500.  When the store reports an error or no row, the answer is
    400 "User not found", and when the row's role is not ["admin"] it is 403
    "Not an admin", in both cases with the store as the only call: the
    password is not looked at.  For an admin row the password is compared,
    and a token is signed only when the comparison returned true; a false
    comparison is answered 400 "Invalid credentials". *)
Theorem admin_login_checks_in_order penv w req :
  let t := (serve penv w POST_auth_admin_login req).1 in
  let res := (serve penv w POST_auth_admin_login req).2 in
  match req_body req with
  | None => kinds t = [] ∧ res = status_json 500 (msg "Server error")
  | Some b =>
      match w _ (select_user_by_email (body_email b)) with
      | Rejects _ =>
          kinds t = [Select_user] ∧ res = status_json 500 (msg "Server error")
      | Returns r =>
          match error r, data r with
          | None, Some u =>
              if bool_decide (role u = "admin")
              then
                match w _ (bcrypt_compare (body_password b) (password_hash u)) with
                | Returns true =>
                    kinds t = [Select_user; Compare; Sign]
                | Returns false =>
                    kinds t = [Select_user; Compare]
                    ∧ res = status_json 400 (msg "Invalid credentials")
                | Rejects _ =>
                    kinds t = [Select_user; Compare]
                    ∧ res = status_json 500 (msg "Server error")
                end
              else
                kinds t = [Select_user]
                ∧ res = status_json 403 (msg "Not an admin")
          | _, _ =>
              kinds t = [Select_user]
              ∧ res = status_json 400 (msg "User not found")
          end
      end
  end.
Proof.
  destruct req as [rid [b|]]; cbn; [|done].
  unfold try_catch, admin_login. cbn.
  destruct (w _ (select_user_by_email (body_email b))) as [[d e]|err]; cbn;
    [|done].
  destruct e as [m|]; cbn; [by destruct d|]. destruct d as [u|]; cbn; [|done].
  destruct (decide (role u = "admin")) as [Hr|Hr].
  - rewrite (bool_decide_eq_false_2 (role u ≠ "admin")) by tauto.
    rewrite (bool_decide_eq_true_2 _ Hr). cbn.
    destruct (w _ (bcrypt_compare (body_password b) (password_hash u)))
      as [[|]|err]; cbn; [|done|done].
    by destruct (w _ (jwt_sign (id u) (role u) (JWT_SECRET penv) "2h")).
  - rewrite (bool_decide_eq_true_2 _ Hr).
    by rewrite (bool_decide_eq_false_2 _ Hr).
Qed.

Example admin_login_friendly :
  serve no_env friendly POST_auth_admin_login root_login
  = ([Called _ (select_user_by_email (str "root@x.com"))
        (Returns (mkQueryResult (Some root_row) None));
      Called _ (bcrypt_compare (str "secret") "$2b$10$hash") (Returns true);
      Called _ (jwt_sign "7" "admin" "default_secret" "2h")
        (Returns "token-for-7")],
     json (token_admin "token-for-7" "7" "Root" "root@x.com")).
Proof. reflexivity. Qed.

Example admin_login_bodiless :
  serve no_env friendly POST_auth_admin_login bodiless
  = ([Logged "Admin login error:"
        "Cannot destructure property 'email' of 'req.body' as it is undefined."],
     status_json 500 (msg "Server error")).
Proof. reflexivity. Qed.

(** X14. On every route the answer is 200, 400, 403 or 500, and it is 500
    exactly when an exception reached the handler's [catch]: a call to the
    outside was rejected, or the request has no body on a route that
    destructures it.  The handler then makes no further call, writes one
    line with the route's label and the error to [console.error], and
    answers "Server error". *)
Theorem server_error_iff_exception penv w route req :
  let t := (serve penv w route req).1 in
  let res := (serve penv w route req).2 in
  status res ∈ [200; 400; 403; 500]
  ∧ (status res = 500
     ↔ rejected t = true ∨ (reads_body route = true ∧ req_body req = None))
  ∧ (status res = 500
     ↔ ∃ err, last t = Some (Logged (error_label route) err)
              ∧ (body res = msg "Server error"
                 ∨ body res = error_body "Server error")).
Proof.
  cbn zeta.
  assert (H500 : 500 ∈ [200; 400; 403; 500]) by (apply list_elem_of_In; cbn; tauto).
  destruct (decide (reads_body route = true ∧ req_body req = None))
    as [[Hreads Hnone]|Hbody].
  { destruct req as [rid body]. cbn in Hnone. subst body.
    destruct (serve_bodiless penv w route rid Hreads) as [err ->]. cbn.
    split; [done|]. split; [by split; [right|]|]. split; [|done].
    intros _. eexists. split; [done|by left]. }
  assert (Hnt : reads_body route = false ∨ is_Some (req_body req)).
  { destruct (reads_body route); [right|by left].
    destruct (req_body req); [done|]. by destruct Hbody. }
  destruct (program penv route req) as [p|] eqn:Hp.
  - destruct (serve_program penv w route req p Hp) as (b & -> & Hb).
    pose proof (program_statuses penv route req p Hp) as Hst.
    pose proof (program_never_throws penv route req p Hp Hnt) as Hsafe.
    unfold try_catch.
    destruct (perform w p) as [t [res|err]] eqn:Hrun;
      cbn [fst snd status body status_json].
    + destruct (perform_returns _ w p t res Hst Hrun) as [Hin Hrej].
      assert (Hne : status res ≠ 500).
      { intros Heq. rewrite Heq in Hin. apply list_elem_of_In in Hin. cbn in Hin.
        intuition discriminate. }
      split; [|split].
      * apply list_elem_of_In. apply list_elem_of_In in Hin. cbn in *. tauto.
      * rewrite Hrej. split; [done|]. intros [?|?]; [done|by destruct Hbody].
      * split; [done|]. intros (err & Hlast & _). exfalso.
        apply (perform_calls_only w p t (inl res) (error_label route) err Hrun).
        apply last_Some in Hlast as [t' ->]. apply elem_of_app. right. by left.
    + pose proof (perform_rejected w p t err Hsafe Hrun) as Hrej.
      split; [done|]. split.
      * split; [|done]. intros _. left. apply Hrej.
      * split; [|done]. intros _. exists err. by rewrite last_snoc.
  - destruct route; try done. cbn. split; [|split].
    + apply list_elem_of_In. cbn. tauto.
    + split; [discriminate|]. by intros [?|[? _]].
    + split; [discriminate|]. by intros (err & ? & _).
Qed.

(** X15. [create-user] and the update of a user read the body and check
    [name] and [email] before anything else.  When the body is there and
    either field is missing or empty, the answer is 400 "Missing fields"
    and nothing is called: no password is drawn or hashed, no account is
    created, the store is not touched, no mail is sent.  When the request
    has no body at all, the destructuring throws: the answer is 500 "Server
    error", again with no call. *)
Theorem missing_fields_rejected_before_any_call penv w req (b : ReqBody) :
  req_body req = Some b →
  truthy (body_name b) = false ∨ truthy (body_email b) = false →
  let bodiless := mkRequest (req_id req) None in
  serve penv w POST_admin_create_user req
  = ([], status_json 400 (msg "Missing fields"))
  ∧ serve penv w PUT_admin_users_id req
    = ([], status_json 400 (msg "Missing fields"))
  ∧ (serve penv w POST_admin_create_user bodiless).2
    = status_json 500 (msg "Server error")
  ∧ kinds (serve penv w POST_admin_create_user bodiless).1 = []
  ∧ (serve penv w PUT_admin_users_id bodiless).2
    = status_json 500 (msg "Server error")
  ∧ kinds (serve penv w PUT_admin_users_id bodiless).1 = [].
Proof.
  intros Hb Hmissing. destruct req as [rid body]. cbn in Hb. subst body.
  cbn. unfold try_catch, create_user, put_user. cbn.
  assert (negb (truthy (body_name b)) || negb (truthy (body_email b)) = true)
    as ->; [|done].
  destruct Hmissing as [-> | ->]; [done|apply orb_true_r].
Qed.

Lemma missing_fields_rejected_before_any_call_witness :
  let bodiless := mkRequest (req_id nameless) None in
  serve no_env friendly POST_admin_create_user nameless
  = ([], status_json 400 (msg "Missing fields"))
  ∧ serve no_env friendly PUT_admin_users_id nameless
    = ([], status_json 400 (msg "Missing fields"))
  ∧ (serve no_env friendly POST_admin_create_user bodiless).2
    = status_json 500 (msg "Server error")
  ∧ kinds (serve no_env friendly POST_admin_create_user bodiless).1 = []
  ∧ (serve no_env friendly PUT_admin_users_id bodiless).2
    = status_json 500 (msg "Server error")
  ∧ kinds (serve no_env friendly PUT_admin_users_id bodiless).1 = [].
Proof.
  apply (missing_fields_rejected_before_any_call no_env friendly nameless
           (mkReqBody (str "") (str "carol@x.com") undefined)).
  - reflexivity.
  - left. reflexivity.
Defined.


(** X17. [create-user] does not undo the account when the row cannot be
    inserted: if the account is created and the insert then returns an
    error, the answer is 400 with the store's message, and the handler has
    made no call after the insert: the account stays without a row, and no
    mail is sent. *)
Theorem create_user_keeps_account_on_insert_error
    penv w req (pw h m : string) :
  truthy (req_name req) = true →
  truthy (req_email req) = true →
  w _ random_password = Returns pw →
  w _ (bcrypt_hash pw 10) = Returns h →
  w _ (auth_admin_createUser (req_email req) pw true) = Returns None →
  w _ (insert_user (req_name req) (req_email req) "member" h)
  = Returns (Some m) →
  serve penv w POST_admin_create_user req
  = ([Called _ random_password (Returns pw);
      Called _ (bcrypt_hash pw 10) (Returns h);
      Called _ (auth_admin_createUser (req_email req) pw true) (Returns None);
      Called _ (insert_user (req_name req) (req_email req) "member" h)
        (Returns (Some m))],
     status_json 400 (msg m)).
Proof.
  intros Hname Hemail Hpw Hh Hauth Hins. cbn [serve].
  destruct req as [rid [b|]]; [|done].
  change (req_name {| req_id := rid; req_body := Some b |})
    with (body_name b) in *.
  change (req_email {| req_id := rid; req_body := Some b |})
    with (body_email b) in *.
  unfold try_catch, create_user. cbn. rewrite Hname, Hemail. cbn.
  rewrite Hpw. cbn. rewrite Hh. cbn. rewrite Hauth. cbn. by rewrite Hins.
Qed.

Lemma create_user_keeps_account_on_insert_error_witness :
  serve no_env read_only POST_admin_create_user new_member
  = ([Called _ random_password (Returns "k3j9x0qa");
      Called _ (bcrypt_hash "k3j9x0qa" 10) (Returns "$2b$10$k3j9x0qa");
      Called _ (auth_admin_createUser (req_email new_member) "k3j9x0qa" true)
        (Returns None);
      Called _ (insert_user (req_name new_member) (req_email new_member)
                  "member" "$2b$10$k3j9x0qa")
        (Returns (Some "permission denied"))],
     status_json 400 (msg "permission denied")).
Proof.
  apply (create_user_keeps_account_on_insert_error no_env read_only new_member
           "k3j9x0qa" "$2b$10$k3j9x0qa" "permission denied");
    reflexivity.
Defined.

(** X18. Once the account and the row exist, the answer of [create-user]
    does not depend on what the mail service answers: whatever HTTP status
    the mail call returns, the answer is 200 and carries the name, the
    email and the very password that was given to the account and put in
    the mail, while the row holds the hash of that password with role
    ["member"].  Only a rejected mail call changes the answer, to 500, with
    the account and the row already written. *)
Theorem create_user_ignores_mail_status
    penv w req (pw h : string) (o : Outcome nat) :
  truthy (req_name req) = true →
  truthy (req_email req) = true →
  w _ random_password = Returns pw →
  w _ (bcrypt_hash pw 10) = Returns h →
  w _ (auth_admin_createUser (req_email req) pw true) = Returns None →
  w _ (insert_user (req_name req) (req_email req) "member" h) = Returns None →
  w _ (emailjs_send (welcome_mail penv (req_name req) (req_email req) pw)) = o →
  (serve penv w POST_admin_create_user req).2
  = match o with
    | Returns _ =>
        json (created "✅ User created successfully" (req_name req)
                (req_email req) pw)
    | Rejects _ => status_json 500 (msg "Server error")
    end
  ∧ kinds (serve penv w POST_admin_create_user req).1
    = [Random; Hash; Create_auth_user; Insert_user; Send_mail].
Proof.
  intros Hname Hemail Hpw Hh Hauth Hins Hmail. cbn [serve].
  destruct req as [rid [b|]]; [|done].
  change (req_name {| req_id := rid; req_body := Some b |})
    with (body_name b) in *.
  change (req_email {| req_id := rid; req_body := Some b |})
    with (body_email b) in *.
  unfold try_catch, create_user. cbn. rewrite Hname, Hemail. cbn.
  rewrite Hpw. cbn. rewrite Hh. cbn. rewrite Hauth. cbn. rewrite Hins. cbn.
  rewrite Hmail. by destruct o.
Qed.

Lemma create_user_ignores_mail_status_witness :
  (serve no_env friendly POST_admin_create_user new_member).2
  = match Returns 200 with
    | Returns _ =>
        json (created "✅ User created successfully" (req_name new_member)
                (req_email new_member) "k3j9x0qa")
    | Rejects _ => status_json 500 (msg "Server error")
    end
  ∧ kinds (serve no_env friendly POST_admin_create_user new_member).1
    = [Random; Hash; Create_auth_user; Insert_user; Send_mail].
Proof.
  apply (create_user_ignores_mail_status no_env friendly new_member
           "k3j9x0qa" "$2b$10$k3j9x0qa" (Returns 200));
    reflexivity.
Defined.

(** X19. Update and delete of a user make exactly one call to the store,
    with the id of the path (and, for the update, the name and email of the
    body) as given, and the answer mirrors what the store says: 200 when it
    reports no error, 400 with the store's message when it reports one, 500
    when the call is rejected.  Neither looks first whether the id exists. *)
Theorem user_write_mirrors_store penv w req :
  truthy (req_name req) = true →
  truthy (req_email req) = true →
  let answer (ok : string) (o : Outcome (option string)) : Response :=
    match o with
    | Returns None => json (msg ok)
    | Returns (Some m) => status_json 400 (msg m)
    | Rejects _ => status_json 500 (msg "Server error")
    end in
  (serve penv w PUT_admin_users_id req).2
  = answer "User updated"
      (w _ (update_user (req_id req) (req_name req) (req_email req)))
  ∧ kinds (serve penv w PUT_admin_users_id req).1 = [Update_user]
  ∧ (serve penv w DELETE_admin_users_id req).2
    = answer "User deleted" (w _ (delete_user (req_id req)))
  ∧ kinds (serve penv w DELETE_admin_users_id req).1 = [Delete_user].
Proof.
  intros Hname Hemail answer. subst answer. cbn [serve].
  destruct req as [rid [b|]]; [|done].
  change (req_name {| req_id := rid; req_body := Some b |})
    with (body_name b) in *.
  change (req_email {| req_id := rid; req_body := Some b |})
    with (body_email b) in *.
  unfold try_catch, put_user, remove_user. cbn. rewrite Hname, Hemail. cbn.
  destruct (w _ (update_user rid (body_name b) (body_email b)))
    as [[m|]|err];
    destruct (w _ (delete_user rid)) as [[m'|]|err']; done.
Qed.

Lemma user_write_mirrors_store_witness :
  let answer (ok : string) (o : Outcome (option string)) : Response :=
    match o with
    | Returns None => json (msg ok)
    | Returns (Some m) => status_json 400 (msg m)
    | Rejects _ => status_json 500 (msg "Server error")
    end in
  (serve no_env read_only PUT_admin_users_id new_member).2
  = answer "User updated"
      (read_only _ (update_user (req_id new_member) (req_name new_member)
                      (req_email new_member)))
  ∧ kinds (serve no_env read_only PUT_admin_users_id new_member).1
    = [Update_user]
  ∧ (serve no_env read_only DELETE_admin_users_id new_member).2
    = answer "User deleted" (read_only _ (delete_user (req_id new_member)))
  ∧ kinds (serve no_env read_only DELETE_admin_users_id new_member).1
    = [Delete_user].
Proof.
  apply (user_write_mirrors_store no_env read_only new_member); reflexivity.
Defined.

(** X20. The list of users makes one query and passes on what the store
    gives: the rows as they are, a missing [data] included, with 200.  An
    error reported by the store wins over rows that came with it: the
    answer is then 400 with the store's message under [error]. *)
Theorem list_users_passes_rows_unless_error penv w req
    (rows : option (list Listing)) (e : option string) :
  w _ select_users = Returns (mkQueryResult rows e) →
  serve penv w GET_admin_users req
  = ([Called _ select_users (Returns (mkQueryResult rows e))],
     match e with
     | Some m => status_json 400 (error_body m)
     | None => json (listing rows)
     end).
Proof.
  intros Hsel. cbn [serve]. unfold try_catch, list_users. cbn.
  rewrite Hsel. by destruct e.
Qed.

Lemma list_users_passes_rows_unless_error_witness :
  serve no_env friendly GET_admin_users new_member
  = ([Called _ select_users (Returns (mkQueryResult (Some []) None))],
     match @None string with
     | Some m => status_json 400 (error_body m)
     | None => json (listing (Some []))
     end).
Proof.
  apply (list_users_passes_rows_unless_error no_env friendly new_member
           (Some []) None).
  reflexivity.
Defined.

(** X21. The secret that signs the tokens is never empty: it is the value
    of the environment variable when that is set and not empty, and
    "default_secret" when it is unset or empty.  In the same way the port
    is the variable's text, or 5013 when it is unset or empty. *)
Theorem config_falls_back_to_defaults penv :
  JWT_SECRET penv ≠ ""
  ∧ (JWT_SECRET penv = "default_secret"
     ↔ env_JWT_SECRET penv ∈ [None; Some ""; Some "default_secret"])
  ∧ (∀ s, s ≠ "" → env_JWT_SECRET penv = Some s → JWT_SECRET penv = s)
  ∧ (PORT penv = inr 5013%N ↔ env_PORT penv ∈ [None; Some ""])
  ∧ (∀ s, s ≠ "" → env_PORT penv = Some s → PORT penv = inl s).
Proof.
  unfold JWT_SECRET, PORT.
  assert (Hmem : ∀ (x : option string) l, x ∈ l ↔ In x l)
    by (intros; apply list_elem_of_In).
  repeat split.
  - destruct (env_JWT_SECRET penv) as [s|]; [|done]. by case_bool_decide.
  - rewrite Hmem. cbn. destruct (env_JWT_SECRET penv) as [s|]; [|tauto].
    case_bool_decide as Hs; [|subst; tauto].
    intros ->. tauto.
  - rewrite Hmem. cbn. destruct (env_JWT_SECRET penv) as [s|]; [|done].
    intros [|[[= <-]|[[= <-]|[]]]]; done.
  - intros s Hs ->. by rewrite bool_decide_eq_true_2.
  - rewrite Hmem. cbn. destruct (env_PORT penv) as [s|]; [|tauto].
    case_bool_decide as Hs; [done|]. subst. tauto.
  - rewrite Hmem. cbn. destruct (env_PORT penv) as [s|]; [|done].
    intros [|[[= <-]|[]]]; done.
  - intros s Hs ->. by rewrite bool_decide_eq_true_2.
Qed.

End admin_facts.
